(** * giggrabber: the scrape-then-extract pipeline of [src/app/api/scrape/route.ts]

    A shallow embedding of the route handler [POST] and of its two helpers
    [scrapeWebsite] and [extractEventsWithGPT].

    - JavaScript values that come out of [JSON.parse] / [request.json()] are
      the inductive type [JSValue]; [||], [!] and property reads are written
      out with their JavaScript meaning (truthiness, [undefined] for a
      missing key, a [TypeError] on [null]), and so is the conversion of a
      value in a template literal and in [new Date(..)], which throws for
      an object that has a key "toString" of its own.
    - The rendered page is a tree of nodes; what the page script reads
      from an element are its properties, which on a form are taken over
      by the controls of that name.
    - Strings are sequences of code units; the model covers code units
      below 256 (Latin-1), for which [toLowerCase] and [trim] are written
      out exactly.
    - Exceptions and the outside world (browser, model service) are threaded
      by a small state-and-exception monad [M]; every call that reaches the
      browser or the model service is recorded in a call log.  A call to
      the browser or to the model service returns or throws; a run in
      which one of them stays pending for ever has no outcome here.
    - Host builtins whose behaviour is fixed by the platform and not by this
      repository ([JSON.parse], [new URL(..).hostname], [new Date(..)],
      [Array.prototype.sort]) are fields of an environment record [Env].

    The component [Home] of [app/page.tsx], which calls the route, is
    embedded in [Module Page]: its handlers are functions on the state of
    the component, and [served] connects its [fetch] to [POST].

    The source file holds two revisions of the handler; the later one adds
    the screenshot and the scroll, and the validation, the loop, the
    normalization and the sort are the same in both.  The embedding follows
    the revision with the screenshot. *)

From Stdlib Require Import String Ascii List ZArith QArith Bool Lia Permutation Sorted Arith.
From Stdlib Require DecimalString.
Import ListNotations.

Set Warnings "-register-all".

Local Open Scope bool_scope.
Local Open Scope list_scope.
Local Open Scope string_scope.

(* ====================================================================== *)
(** * Strings *)
(* ====================================================================== *)

Module Str.

(** [String.prototype.toLowerCase] on a Latin-1 code unit: A-Z and the
    accented capitals 192-222 (except the multiplication sign 215) move
    up by 32. *)
Definition lower_char (c : ascii) : ascii :=
  let n := nat_of_ascii c in
  if ((65 <=? n) && (n <=? 90))%nat then ascii_of_nat (n + 32)
  else if ((192 <=? n) && (n <=? 222) && negb (n =? 215))%nat then ascii_of_nat (n + 32)
  else c.

Fixpoint toLowerCase (s : string) : string :=
  match s with
  | EmptyString => EmptyString
  | String c s' => String (lower_char c) (toLowerCase s')
  end.

(** White space and line terminators removed by [String.prototype.trim]:
    TAB, LF, VT, FF, CR, SPACE and NBSP. *)
Definition is_space (c : ascii) : bool :=
  let n := nat_of_ascii c in
  ((9 <=? n) && (n <=? 13) || (n =? 32) || (n =? 160))%nat.

Fixpoint trimStart (s : string) : string :=
  match s with
  | EmptyString => EmptyString
  | String c s' => if is_space c then trimStart s' else s
  end.

(** [trimEnd] drops a character when it is a space and everything after
    it has already been dropped. *)
Fixpoint trimEnd (s : string) : string :=
  match s with
  | EmptyString => EmptyString
  | String c s' =>
      match trimEnd s' with
      | EmptyString => if is_space c then EmptyString else String c EmptyString
      | t => String c t
      end
  end.

Definition trim (s : string) : string := trimEnd (trimStart s).

(** [s.startsWith(p)]. *)
Fixpoint startsWith (p s : string) : bool :=
  match p, s with
  | EmptyString, _ => true
  | String _ _, EmptyString => false
  | String a p', String b s' => Ascii.eqb a b && startsWith p' s'
  end.

(** [s.includes(p)]: [p] occurs in [s] as a substring. *)
Fixpoint includes (s p : string) : bool :=
  startsWith p s ||
  match s with
  | EmptyString => false
  | String _ s' => includes s' p
  end.

Fixpoint drop (n : nat) (s : string) : string :=
  match n, s with
  | O, _ => s
  | S _, EmptyString => EmptyString
  | S n', String _ s' => drop n' s'
  end.

(** [s.replace(p, r)] with a string pattern: only the first occurrence of
    [p] is replaced, wherever it is. *)
Fixpoint replace (p r s : string) : string :=
  if startsWith p s then r ++ drop (String.length p) s
  else match s with
       | EmptyString => EmptyString
       | String c s' => String c (replace p r s')
       end.

(** [parts.join(sep)]. *)
Fixpoint join (sep : string) (parts : list string) : string :=
  match parts with
  | [] => EmptyString
  | [x] => x
  | x :: rest => x ++ sep ++ join sep rest
  end.

(** A string is truthy when it is not empty. *)
Definition nonEmpty (s : string) : bool := negb (String.eqb s EmptyString).

Definition mem (x : string) (l : list string) : bool :=
  existsb (String.eqb x) l.

End Str.

(** Line feed, as written ['\n'] in the source. *)
Definition LF : string := String (ascii_of_nat 10) EmptyString.

(* ====================================================================== *)
(** * JavaScript values *)
(* ====================================================================== *)

(** Values as [JSON.parse] and [request.json()] produce them, with
    [JUndefined] for what a read of a missing key gives.  A number carries
    the value of the double as a rational. *)
Inductive JSValue : Type :=
| JUndefined
| JNull
| JBool (b : bool)
| JNum (q : Q)
| JStr (s : string)
| JArr (items : list JSValue)
| JObj (fields : list (string * JSValue)).

(** ToBoolean. *)
Definition truthy (v : JSValue) : bool :=
  match v with
  | JUndefined | JNull => false
  | JBool b => b
  | JNum q => negb (Qnum q =? 0)%Z
  | JStr s => Str.nonEmpty s
  | JArr _ | JObj _ => true
  end.

(** [a || b]. *)
Definition js_or (a b : JSValue) : JSValue := if truthy a then a else b.

Fixpoint lookup_field (k : string) (fields : list (string * JSValue)) : JSValue :=
  match fields with
  | [] => JUndefined
  | (k', v) :: rest => if String.eqb k k' then v else lookup_field k rest
  end.

(** What was thrown: an [Error] object with its message, or anything else. *)
Inductive Thrown : Type :=
| ThrownError (message : string)
| ThrownOther.

Definition Outcome (A : Type) : Type := (Thrown + A)%type.

Definition TypeError (message : string) : Thrown := ThrownError message.

(** [v.k] for the keys this program reads (urls, apiKey, events, data,
    venue, eventName, name, title, date, time, price, description, url):
    none of them is on a builtin prototype, so the read gives the own
    property or [undefined], and throws a [TypeError] on [null] and
    [undefined]. *)
Definition get_prop (v : JSValue) (k : string) : Outcome JSValue :=
  match v with
  | JUndefined | JNull => inl (TypeError ("Cannot read properties of null or undefined (reading '" ++ k ++ "')"))
  | JObj fields => inr (lookup_field k fields)
  | _ => inr JUndefined
  end.

Definition Array_isArray (v : JSValue) : bool :=
  match v with JArr _ => true | _ => false end.

(** Whether a value can be converted to a primitive.  A template literal
    and [new Date(v)] convert an object by calling its [toString] and its
    [valueOf]; a primitive always converts.  An object made by
    [JSON.parse] inherits both methods from [Object.prototype], unless it
    has a key of its own called "toString": the value under that key is
    never a function, [valueOf] gives the object back, and the conversion
    throws a [TypeError].  An array is converted by [join], which converts
    each of its elements. *)
Fixpoint hasStringForm (v : JSValue) : bool :=
  match v with
  | JArr items =>
      (fix all (l : list JSValue) : bool :=
         match l with
         | [] => true
         | x :: l' => hasStringForm x && all l'
         end) items
  | JObj fields => negb (existsb (fun kv => String.eqb (fst kv) "toString") fields)
  | _ => true
  end.

(** The conversion of [v] in a template literal.  Only whether it throws
    is kept: the text goes to the console or into the prompt. *)
Definition templateLiteral (v : JSValue) : Outcome unit :=
  if hasStringForm v then inr tt
  else inl (TypeError "Cannot convert object to primitive value").

(** Sequencing of pure computations that may throw. *)
Definition andThen {A B} (o : Outcome A) (k : A -> Outcome B) : Outcome B :=
  match o with
  | inl e => inl e
  | inr a => k a
  end.

Declare Scope js_scope.
Delimit Scope js_scope with js.
Notation "x <~ c ;; k" := (andThen c (fun x => k))
  (at level 61, c at next level, right associativity) : js_scope.

Local Open Scope js_scope.

(* ====================================================================== *)
(** * The rendered document *)
(* ====================================================================== *)

(** A DOM node as the page script sees it: text, an element with its tag
    name, attributes and child nodes, or a node of another kind (comment),
    which neither [textContent] nor the walk of [getTextWithStructure]
    looks at.  [tagName] is what [el.tagName] gives: in an HTML document
    that is upper case for an HTML element and the name as written for an
    element of another namespace (SVG). *)
Inductive Node : Type :=
| TextNode (data : string)
| CommentNode (data : string)
| ElementNode (tagName : string) (attributes : list (string * string))
              (childNodes : list Node).

(** An HTML document: its address and the [<html>] root element. *)
Record Document : Type := mkDocument {
  location_href : string;
  html_attributes : list (string * string);
  html_childNodes : list Node
}.

Definition documentElement (d : Document) : Node :=
  ElementNode "HTML" (html_attributes d) (html_childNodes d).

Module DOM.

Definition isElement (n : Node) : bool :=
  match n with ElementNode _ _ _ => true | _ => false end.

(** The lower-cased tag name; the empty string for a non-element. *)
Definition localName (n : Node) : string :=
  match n with
  | ElementNode t _ _ => Str.toLowerCase t
  | _ => EmptyString
  end.

Fixpoint getAttribute (name : string) (attrs : list (string * string)) : option string :=
  match attrs with
  | [] => None
  | (k, v) :: rest => if String.eqb k name then Some v else getAttribute name rest
  end.

(** A reflected string attribute ([className], [id]): the empty string
    when the attribute is not there. *)
Definition reflected (name : string) (n : Node) : string :=
  match n with
  | ElementNode _ attrs _ =>
      match getAttribute name attrs with Some v => v | None => EmptyString end
  | _ => EmptyString
  end.

Definition className : Node -> string := reflected "class".
Definition id : Node -> string := reflected "id".

(** [node.textContent]: the data of a text node, the concatenation of
    the text content of the children of an element (comments left out). *)
Fixpoint textContent (n : Node) : string :=
  match n with
  | TextNode d => d
  | CommentNode _ => EmptyString
  | ElementNode _ _ cs =>
      (fix all (l : list Node) : string :=
         match l with
         | [] => EmptyString
         | c :: l' => textContent c ++ all l'
         end) cs
  end.

(** The elements of a subtree in document order, the root first: what
    [querySelectorAll('*')] lists. *)
Fixpoint elements (n : Node) : list Node :=
  match n with
  | ElementNode _ _ cs =>
      n :: (fix all (l : list Node) : list Node :=
              match l with
              | [] => []
              | c :: l' => (elements c ++ all l')%list
              end) cs
  | _ => []
  end.

Definition querySelectorAll (sel : Node -> bool) (d : Document) : list Node :=
  filter sel (elements (documentElement d)).

Definition querySelector (sel : Node -> bool) (d : Document) : option Node :=
  match querySelectorAll sel d with
  | [] => None
  | n :: _ => Some n
  end.

(** [document.body]: the first child of the root that is a [body] or a
    [frameset] element, [null] when there is none. *)
Definition body (d : Document) : option Node :=
  find (fun n => isElement n &&
                 (String.eqb (localName n) "body" || String.eqb (localName n) "frameset"))
       (html_childNodes d).

(** Type selector [tag]. *)
Definition hasTag (tag : string) (n : Node) : bool :=
  isElement n && String.eqb (localName n) tag.

(** The selector ['script, style, noscript']. *)
Definition nonContent (n : Node) : bool :=
  hasTag "script" n || hasTag "style" n || hasTag "noscript" n.

(** The selector ['script[type="application/ld+json"]']; in an HTML
    document the value of [type] is compared without regard to case. *)
Definition ldJsonScript (n : Node) : bool :=
  hasTag "script" n &&
  match n with
  | ElementNode _ attrs _ =>
      match getAttribute "type" attrs with
      | Some v => String.eqb (Str.toLowerCase v) "application/ld+json"
      | None => false
      end
  | _ => false
  end.

(** [scripts.forEach(el => el.remove())]: every element the selector
    picks is taken out of the tree together with what is below it. *)
Fixpoint removeAll (sel : Node -> bool) (n : Node) : Node :=
  match n with
  | ElementNode t a cs =>
      ElementNode t a
        ((fix all (l : list Node) : list Node :=
            match l with
            | [] => []
            | c :: l' => if sel c then all l' else removeAll sel c :: all l'
            end) cs)
  | _ => n
  end.

(** The same on a document; its root is [<html>] and stays. *)
Definition removeFromDocument (sel : Node -> bool) (d : Document) : Document :=
  match removeAll sel (documentElement d) with
  | ElementNode _ a cs => mkDocument (location_href d) a cs
  | _ => d
  end.

End DOM.

(* ====================================================================== *)
(** * Content shaping: the callback of [page.evaluate] in [scrapeWebsite] *)
(* ====================================================================== *)

Definition blockElements : list string :=
  ["div"; "p"; "h1"; "h2"; "h3"; "h4"; "h5"; "h6"; "li"; "tr"; "article"; "section"].

Definition eventKeywords : list string :=
  ["events"; "calendar"; "shows"; "concerts"; "schedule"; "upcoming"; "performances"; "gigs"].

(** One step of the loop over [element.childNodes]: what [child] adds to
    [text], given the text [inner] of the child when it is an element. *)
Definition addChild (text : string) (child : Node) (inner : string) : string :=
  match child with
  | TextNode d =>
      let nodeText := Str.trim d in
      if Str.nonEmpty nodeText then text ++ nodeText ++ " " else text
  | ElementNode tag _ _ =>
      let tagName := Str.toLowerCase tag in
      let text1 := if Str.mem tagName blockElements then text ++ LF else text in
      let text2 := text1 ++ inner in
      if Str.mem tagName blockElements then text2 ++ LF else text2
  | CommentNode _ => text
  end.

Fixpoint getTextWithStructure (element : Node) : string :=
  match element with
  | ElementNode _ _ cs =>
      (fix loop (l : list Node) (text : string) : string :=
         match l with
         | [] => text
         | child :: rest => loop rest (addChild text child (getTextWithStructure child))
         end) cs EmptyString
  | _ => EmptyString
  end.

(** ** The properties the filter reads

    [el.textContent], [el.className] and [el.id] are properties of the
    element, and the text and the class and id attributes are only what
    they give on most elements.
    - A [<form>] gives its controls under their names, ahead of its own
      properties: [form.id] is the control whose [name] or [id] attribute
      is "id" when the form has one, and a list of controls when it has
      several.  The controls of a form are taken to be the listed elements
      (or, when none of them has the name, the images) that have the form
      as their nearest form ancestor and no [form] attribute of their
      own.  An association made through a [form] attribute, or by the
      parser for markup that is not well nested, is not in the tree and
      not in the model.
    - On an SVG element [className] is an [SVGAnimatedString] object.
      An element whose tag name is not in upper case is not an HTML
      element, and is taken to be an SVG element. *)
Inductive Property : Type :=
| PString (s : string)
| PObject (interface : string).   (* prints as [[object interface]] *)

Definition isLowerCaseLetter (c : ascii) : bool :=
  let n := nat_of_ascii c in ((97 <=? n) && (n <=? 122))%nat.

Fixpoint noLowerCase (s : string) : bool :=
  match s with
  | EmptyString => true
  | String c s' => negb (isLowerCaseLetter c) && noLowerCase s'
  end.

Definition isHTMLElement (n : Node) : bool :=
  match n with
  | ElementNode t _ _ => noLowerCase t
  | _ => false
  end.

Definition listedElements : list string :=
  ["button"; "fieldset"; "input"; "object"; "output"; "select"; "textarea"].

(** [<input type="image">] is not among the controls of a form. *)
Definition isImageButton (n : Node) : bool :=
  DOM.hasTag "input" n &&
  String.eqb (Str.toLowerCase (DOM.reflected "type" n)) "image".

Definition isListed (n : Node) : bool :=
  isHTMLElement n && Str.mem (DOM.localName n) listedElements && negb (isImageButton n).

Definition isImage (n : Node) : bool := isHTMLElement n && DOM.hasTag "img" n.

(** The element has the [name] or the [id] attribute [property]. *)
Definition isNamed (property : string) (n : Node) : bool :=
  match n with
  | ElementNode _ attrs _ =>
      match DOM.getAttribute "name" attrs with
      | Some v => String.eqb v property
      | None => false
      end ||
      match DOM.getAttribute "id" attrs with
      | Some v => String.eqb v property
      | None => false
      end
  | _ => false
  end.

Definition isForm (n : Node) : bool := isHTMLElement n && DOM.hasTag "form" n.

Definition hasFormAttribute (n : Node) : bool :=
  match n with
  | ElementNode _ attrs _ =>
      match DOM.getAttribute "form" attrs with Some _ => true | None => false end
  | _ => false
  end.

(** The elements below [n] whose nearest form ancestor is not below [n]:
    the walk does not go into a form. *)
Fixpoint belowForm (n : Node) : list Node :=
  match n with
  | ElementNode _ _ cs =>
      (fix all (l : list Node) : list Node :=
         match l with
         | [] => []
         | c :: l' =>
             ((if isForm c then []
               else (if DOM.isElement c then [c] else []) ++ belowForm c)
              ++ all l')%list
         end) cs
  | _ => []
  end.

(** The controls a form gives under the name [property]; none for an
    element that is not a form. *)
Definition namedControls (property : string) (el : Node) : list Node :=
  if isForm el then
    let owned := filter (fun c => negb (hasFormAttribute c)) (belowForm el) in
    match filter (fun c => isListed c && isNamed property c) owned with
    | [] => filter (fun c => isImage c && isNamed property c) owned
    | controls => controls
    end
  else [].

(** The interface of a control. *)
Definition interfaceOf (control : Node) : string :=
  let tag := DOM.localName control in
  if String.eqb tag "button" then "HTMLButtonElement"
  else if String.eqb tag "fieldset" then "HTMLFieldSetElement"
  else if String.eqb tag "input" then "HTMLInputElement"
  else if String.eqb tag "object" then "HTMLObjectElement"
  else if String.eqb tag "output" then "HTMLOutputElement"
  else if String.eqb tag "select" then "HTMLSelectElement"
  else if String.eqb tag "textarea" then "HTMLTextAreaElement"
  else "HTMLImageElement".

(** [el[property]], where [own] is what the element itself has there. *)
Definition readProperty (property : string) (own : Property) (el : Node) : Property :=
  match namedControls property el with
  | [] => own
  | [control] => PObject (interfaceOf control)
  | _ => PObject "RadioNodeList"
  end.

Definition el_textContent (el : Node) : Property :=
  readProperty "textContent" (PString (DOM.textContent el)) el.

Definition el_className (el : Node) : Property :=
  readProperty "className"
    (if isHTMLElement el then PString (DOM.className el) else PObject "SVGAnimatedString")
    el.

Definition el_id (el : Node) : Property :=
  readProperty "id" (PString (DOM.id el)) el.

(** [p?.toLowerCase() || ''] for a property that is not [null]: a string
    is lower-cased; an object has no [toLowerCase], and the call throws. *)
Definition lowerCased (what : string) (p : Property) : Outcome string :=
  match p with
  | PString s => inr (Str.toLowerCase s)
  | PObject _ => inl (TypeError (what ++ "?.toLowerCase is not a function"))
  end.

(** [p?.toString().toLowerCase() || '']. *)
Definition printedLowerCased (p : Property) : string :=
  match p with
  | PString s => Str.toLowerCase s
  | PObject interface => Str.toLowerCase ("[object " ++ interface ++ "]")
  end.

(** The callback of the filter of the keyword loop: text, class or id
    contains the keyword once lower-cased.  The three constants are
    computed before anything is compared. *)
Definition matches (keyword : string) (el : Node) : Outcome bool :=
  text <~ lowerCased "el.textContent" (el_textContent el) ;;
  let className := printedLowerCased (el_className el) in
  id <~ lowerCased "el.id" (el_id el) ;;
  inr (Str.includes text keyword || Str.includes className keyword
       || Str.includes id keyword).

(** [array.filter(f)] with a callback that may throw. *)
Fixpoint filterOutcome {A} (f : A -> Outcome bool) (l : list A) : Outcome (list A) :=
  match l with
  | [] => inr []
  | x :: rest =>
      keep <~ f x ;;
      kept <~ filterOutcome f rest ;;
      inr (if keep then x :: kept else kept)
  end.

(** The guard of the inner loop: [el.textContent && el.textContent.length > 50]. *)
Definition longEnough (el : Node) : bool :=
  Str.nonEmpty (DOM.textContent el) && (50 <? String.length (DOM.textContent el))%nat.

(** The inner loop [for (const el of elements)]. *)
Definition appendElements (elements : list Node) (eventContent : string) : string :=
  fold_left (fun acc el =>
               if longEnough el then acc ++ getTextWithStructure el ++ LF ++ LF else acc)
            elements eventContent.

(** The outer loop [for (const keyword of eventKeywords)], from the
    keywords still to come and the text collected so far. *)
Fixpoint forEachKeyword (d : Document) (keywords : list string) (eventContent : string)
  : Outcome string :=
  match keywords with
  | [] => inr eventContent
  | keyword :: rest =>
      elements <~ filterOutcome (matches keyword) (DOM.elements (documentElement d)) ;;
      forEachKeyword d rest (appendElements elements eventContent)
  end.

Definition collectEventContent (d : Document) : Outcome string :=
  forEachKeyword d eventKeywords EmptyString.

(** The structured-data block: the truthy text contents of the ld+json
    scripts, joined by a blank line. *)
Definition structuredData (d : Document) : string :=
  Str.join (LF ++ LF)
    (filter Str.nonEmpty (map DOM.textContent (DOM.querySelectorAll DOM.ldJsonScript d))).

Definition pageReport (href structured eventContent : string) : string :=
  "URL: " ++ href ++ LF ++ LF ++ "STRUCTURED DATA:" ++ LF ++ structured
  ++ LF ++ LF ++ "PAGE CONTENT:" ++ LF ++ eventContent.

(** [document.querySelector('main') || document.body], and the walk of
    it: [document.body] can be [null], and then the walk throws. *)
Definition mainContent (d : Document) : Outcome string :=
  match DOM.querySelector (DOM.hasTag "main") d with
  | Some main => inr (getTextWithStructure main)
  | None =>
      match DOM.body d with
      | Some main => inr (getTextWithStructure main)
      | None => inl (TypeError "Cannot read properties of null (reading 'childNodes')")
      end
  end.

(** The whole callback, on the document as loaded.  It first removes the
    script, style and noscript elements, and everything after that reads
    the document so changed.

    The walk of [getTextWithStructure] and the queries read
    [childNodes], [nodeType], [tagName], [querySelector],
    [querySelectorAll] and [body] as the tree has them; a document in
    which an element is named after one of these is outside the model
    (see [plainDocument] below). *)
Definition shapeContent (loaded : Document) : Outcome string :=
  let d := DOM.removeFromDocument DOM.nonContent loaded in
  found <~ collectEventContent d ;;
  eventContent <~ (if Str.nonEmpty found then inr found else mainContent d) ;;
  inr (pageReport (location_href d) (structuredData d) eventContent).

(* ====================================================================== *)
(** * Events, numbers and the host environment *)
(* ====================================================================== *)

(** The record built by the normalization step.  The TypeScript type says
    [string], but the fields hold whatever the model's JSON held, so they
    are [JSValue]; an omitted [price] or [description] is [JUndefined]. *)
Record Event : Type := mkEvent {
  venue : JSValue;
  eventName : JSValue;
  date : JSValue;
  time : JSValue;
  price : JSValue;
  description : JSValue;
  url : JSValue
}.

(** A time value or a difference of time values: an integer number of
    milliseconds, or [NaN].  The double difference of two time values has
    the sign of the exact difference, which is all that sorting reads. *)
Inductive Number : Type :=
| NaN
| Num (z : Z).

Definition Number_sub (a b : Number) : Number :=
  match a, b with
  | Num x, Num y => Num (x - y)
  | _, _ => NaN
  end.

Definition isNaN (n : Number) : bool :=
  match n with NaN => true | Num _ => false end.

(** What the handler calls outside itself. *)
Inductive Call : Type :=
| Render (url : JSValue)          (* [scrapeWebsite(url)] entered *)
| Extract (url : JSValue).        (* [openai.chat.completions.create] called *)

(** The platform.  [World] is the state of everything outside the handler.
    - [page_load url]: launching the browser, [page.goto], the waits and
      the scroll; gives the document the page script then runs on.
    - [page_screenshot url]: [page.screenshot], base64-encoded, and the
      closing of the browser after it.
    - [chat_completions_create apiKey content screenshot url]: the request
      to the model built from the two fixed prompts; gives
      [response.choices[0].message.content], a string or [null]; a reply
      without a first choice throws like a failed request.
    - [JSON_parse], [URL_hostname] (the [hostname] of [new URL(v)]),
      [Date_timeValue] (the [getTime()] of [new Date(v)], for a [v] of
      which a Date can be made) and [Array_sort] are the builtins of the
      engine. *)
Record Env : Type := mkEnv {
  World : Type;
  page_load : JSValue -> World -> Outcome Document * World;
  page_screenshot : JSValue -> World -> Outcome string * World;
  chat_completions_create :
    JSValue -> string -> string -> JSValue -> World -> Outcome (option string) * World;
  JSON_parse : string -> Outcome JSValue;
  URL_hostname : JSValue -> Outcome string;
  Date_timeValue : JSValue -> Number;
  Array_sort : (Event -> Event -> Number) -> list Event -> list Event
}.

(** ** Sorting as ECMAScript specifies it *)

Section SortSpec.
Context {A : Type}.
Variable comparefn : A -> A -> Number.

(** SortCompare: a [NaN] from the comparator counts as [+0]. *)
Definition SortCompare (x y : A) : Z :=
  match comparefn x y with
  | NaN => 0
  | Num v => v
  end.

Definition sgn (x y : A) : Z := Z.sgn (SortCompare x y).

(** A consistent comparator for the values of [l]. *)
Definition Consistent (l : list A) : Prop :=
  (forall a, In a l -> sgn a a = 0%Z) /\
  (forall a b, In a l -> In b l -> sgn a b = (- sgn b a)%Z) /\
  (forall a b c, In a l -> In b l -> In c l ->
                 sgn a b = 0%Z -> sgn b c = 0%Z -> sgn a c = 0%Z) /\
  (forall a b c, In a l -> In b l -> In c l ->
                 sgn a b = (-1)%Z -> sgn b c = (-1)%Z -> sgn a c = (-1)%Z).

(** The order the sorted array has to be in: no later element is less
    than an earlier one. *)
Definition inOrder (a b : A) : Prop := (0 <= SortCompare b a)%Z.

(** Two values that compare equal. *)
Definition sameRank (x y : A) : bool := (SortCompare x y =? 0)%Z.

(** [r] is [l] sorted, stably: it is in order, and the values that compare
    equal to a given one come in the order they had in [l]. *)
Definition StableSorted (l r : list A) : Prop :=
  StronglySorted inOrder r /\
  forall x, In x l -> filter (sameRank x) r = filter (sameRank x) l.

(** The same, computed. *)
Definition consistentOn (l : list A) : bool :=
  forallb (fun a => (sgn a a =? 0)%Z) l &&
  forallb (fun a => forallb (fun b => (sgn a b =? - sgn b a)%Z) l) l &&
  forallb (fun a => forallb (fun b => forallb (fun c =>
     implb ((sgn a b =? 0)%Z && (sgn b c =? 0)%Z) (sgn a c =? 0)%Z) l) l) l &&
  forallb (fun a => forallb (fun b => forallb (fun c =>
     implb ((sgn a b =? -1)%Z && (sgn b c =? -1)%Z) (sgn a c =? -1)%Z) l) l) l.

(** A stable insertion sort: each element goes in front of the sorted
    rest and moves right past the elements it is greater than.  It is the
    sort of the concrete platform below. *)
Fixpoint insertSorted (x : A) (l : list A) : list A :=
  match l with
  | [] => [x]
  | y :: l' => if (0 <? SortCompare x y)%Z then y :: insertSorted x l' else x :: l
  end.

Fixpoint stableSort (l : list A) : list A :=
  match l with
  | [] => []
  | x :: l' => insertSorted x (stableSort l')
  end.
End SortSpec.

(** An engine's sort conforms to ECMAScript when it always rearranges its
    input and, for a consistent comparator, sorts it stably.  For a
    comparator that is not consistent the order is left to the engine. *)
Definition SortConforms (E : Env) : Prop :=
  forall comparefn l,
    Permutation l (Array_sort E comparefn l) /\
    (Consistent comparefn l -> StableSorted comparefn l (Array_sort E comparefn l)).

(* ====================================================================== *)
(** * The monad of the handler *)
(* ====================================================================== *)

Record State (E : Env) : Type := mkState {
  world : World E;
  calls : list Call
}.
Arguments mkState {E} _ _.
Arguments world {E} _.
Arguments calls {E} _.

Definition M (E : Env) (A : Type) : Type := State E -> Outcome A * State E.

Definition ret {E A} (a : A) : M E A := fun st => (inr a, st).

Definition throw {E A} (e : Thrown) : M E A := fun st => (inl e, st).

Definition bind {E A B} (c : M E A) (k : A -> M E B) : M E B :=
  fun st =>
    match c st with
    | (inl e, st') => (inl e, st')
    | (inr a, st') => k a st'
    end.

(** [try { body } catch (error) { handler }]. *)
Definition try_catch {E A} (body : M E A) (handler : Thrown -> M E A) : M E A :=
  fun st =>
    match body st with
    | (inl e, st') => handler e st'
    | (inr a, st') => (inr a, st')
    end.

(** A computation that does not touch the world. *)
Definition lift {E A} (o : Outcome A) : M E A := fun st => (o, st).

(** A call to the outside: it is entered in the log, then done. *)
Definition external {E A} (c : Call) (f : World E -> Outcome A * World E) : M E A :=
  fun st =>
    let '(o, w) := f (world st) in
    (o, mkState w (calls st ++ [c])%list).

(** The same without a log entry, for a call that belongs to one already
    entered. *)
Definition continue {E A} (f : World E -> Outcome A * World E) : M E A :=
  fun st =>
    let '(o, w) := f (world st) in
    (o, mkState w (calls st)).

Notation "x <- c ;; k" := (bind c (fun x => k))
  (at level 61, c at next level, right associativity) : js_scope.
Notation "' p <- c ;; k" := (bind c (fun x => let p := x in k))
  (at level 61, p pattern, c at next level, right associativity) : js_scope.

(** [items.map(f)] with a callback that may throw: the first throw ends
    the whole map. *)
Fixpoint mapOutcome {A B} (f : A -> Outcome B) (items : list A) : Outcome (list B) :=
  match items with
  | [] => inr []
  | x :: rest =>
      match f x with
      | inl e => inl e
      | inr y =>
          match mapOutcome f rest with
          | inl e => inl e
          | inr ys => inr (y :: ys)
          end
      end
  end.

(* ====================================================================== *)
(** * The pipeline *)
(* ====================================================================== *)

(** The request as the handler sees it: what [await request.json()] gives,
    a parsed body or a throw for a body that is not JSON. *)
Record NextRequest : Type := mkRequest {
  json : Outcome JSValue
}.

Inductive ResponseBody : Type :=
| ErrorBody (error : string)
| EventsBody (events : list Event).

(** [NextResponse.json(body, { status })]; the status is 200 when none is
    given. *)
Record NextResponse : Type := mkResponse {
  payload : ResponseBody;
  status : Z
}.

Definition NextResponse_json (b : ResponseBody) (st : option Z) : NextResponse :=
  mkResponse b (match st with Some s => s | None => 200%Z end).

Section Pipeline.
Variable E : Env.

(** ** [scrapeWebsite] *)

(** The browser is closed in a [finally] on every path; closing is not
    part of the model.  [page_load] stands for the launch, the navigation,
    the waits and the scroll when they settle, by returning or by
    throwing.  The scroll ends when the page has been scrolled through; on
    a page that keeps growing, or without a body, its promise stays
    pending and [scrapeWebsite] does not return: such a run has no
    outcome in the model, which tells what happens in the runs in which
    every rendering settles. *)
Definition scrapeWebsite (url : JSValue) : M E (string * string) :=
  doc <- external (Render url) (page_load E url) ;;
  content <- lift (shapeContent doc) ;;
  screenshot <- continue (page_screenshot E url) ;;
  ret (content, screenshot).

(** ** [extractEventsWithGPT] *)

(** [new URL(url).hostname.replace('www.', '')]. *)
Definition hostVenue (url : JSValue) : Outcome JSValue :=
  hostname <~ URL_hostname E url ;;
  inr (JStr (Str.replace "www." EmptyString hostname)).

(** [a || b] where the right operand is only evaluated when needed and
    may throw. *)
Definition orElse (a : JSValue) (b : Outcome JSValue) : Outcome JSValue :=
  if truthy a then inr a else b.

(** The callback of [events.map]. *)
Definition normalizeEvent (url : JSValue) (event : JSValue) : Outcome Event :=
  e_venue <~ get_prop event "venue" ;;
  venue' <~ orElse e_venue (hostVenue url) ;;
  e_eventName <~ get_prop event "eventName" ;;
  e_name <~ get_prop event "name" ;;
  e_title <~ get_prop event "title" ;;
  e_date <~ get_prop event "date" ;;
  e_time <~ get_prop event "time" ;;
  e_price <~ get_prop event "price" ;;
  e_description <~ get_prop event "description" ;;
  e_url <~ get_prop event "url" ;;
  inr {| venue := venue';
         eventName := js_or (js_or (js_or e_eventName e_name) e_title) (JStr "Unknown Event");
         date := js_or e_date (JStr "TBA");
         time := js_or e_time (JStr "TBA");
         price := e_price;
         description := e_description;
         url := js_or e_url url |}.

(** [parsed.events || parsed.data || []]. *)
Definition eventsOf (parsed : JSValue) : Outcome JSValue :=
  p_events <~ get_prop parsed "events" ;;
  p_data <~ get_prop parsed "data" ;;
  inr (js_or (js_or p_events p_data) (JArr [])).

(** [events.map(...)]: only an array has a [map] to call. *)
Definition mapEvents (url : JSValue) (events : JSValue) : Outcome (list Event) :=
  match events with
  | JArr items => mapOutcome (normalizeEvent url) items
  | _ => inl (TypeError "events.map is not a function")
  end.

(** The body of the [try]. *)
Definition extractBody (content screenshot : string) (url apiKey : JSValue)
  : M E (list Event) :=
  result <- external (Extract url)
              (chat_completions_create E apiKey content screenshot url) ;;
  match result with
  | None => ret []
  | Some text =>
      if negb (Str.nonEmpty text) then ret []
      else
        parsed <- lift (JSON_parse E text) ;;
        events <- lift (eventsOf parsed) ;;
        lift (mapEvents url events)
  end.

(** The client is [new OpenAI({ apiKey })]; it is stood for by the key.
    The user prompt is put together, with [url] in a template literal,
    before the [try] is entered. *)
Definition extractEventsWithGPT (content screenshot : string) (url openai : JSValue)
  : M E (list Event) :=
  userPrompt <- lift (templateLiteral url) ;;
  try_catch (extractBody content screenshot url openai) (fun _ => ret []).

(** ** [POST] *)

(** [const { urls, apiKey } = ...]. *)
Definition destructure (body : JSValue) : Outcome (JSValue * JSValue) :=
  urls <~ get_prop body "urls" ;;
  apiKey <~ get_prop body "apiKey" ;;
  inr (urls, apiKey).

(** [!urls || !Array.isArray(urls) || urls.length === 0]. *)
Definition noUrls (urls : JSValue) : bool :=
  negb (truthy urls) || negb (Array_isArray urls) ||
  match urls with
  | JArr items => (List.length items =? 0)%nat
  | _ => false
  end.

(** One turn of [for (const url of urls)], with its own [try]/[catch];
    [allEvents] is the array the events are pushed onto.  Both the [try]
    and the [catch] begin by logging a line made with [url] in a template
    literal; a throw in the [catch] leaves the loop. *)
Definition processUrl (openai : JSValue) (allEvents : list Event) (url : JSValue)
  : M E (list Event) :=
  try_catch
    (scraping <- lift (templateLiteral url) ;;
     '(content, screenshot) <- scrapeWebsite url ;;
     events <- extractEventsWithGPT content screenshot url openai ;;
     ret (allEvents ++ events)%list)
    (fun _ =>
       errorProcessing <- lift (templateLiteral url) ;;
       ret allEvents).

Fixpoint forEachUrl (openai : JSValue) (urls : list JSValue) (allEvents : list Event)
  : M E (list Event) :=
  match urls with
  | [] => ret allEvents
  | url :: rest =>
      allEvents' <- processUrl openai allEvents url ;;
      forEachUrl openai rest allEvents'
  end.

(** [new Date(v)], as its time value: an object or an array is first
    converted to a primitive, which throws when it has no string form. *)
Definition new_Date (v : JSValue) : Outcome Number :=
  if hasStringForm v then inr (Date_timeValue E v)
  else inl (TypeError "Cannot convert object to primitive value").

(** The body of the comparator's [try]. *)
Definition compareBody (a b : Event) : Outcome Number :=
  dateA <~ new_Date (date a) ;;
  dateB <~ new_Date (date b) ;;
  inr (Number_sub dateA dateB).

(** The comparator given to [allEvents.sort]. *)
Definition compareByDate (a b : Event) : Number :=
  match compareBody a b with
  | inr v => v
  | inl _ => Num 0
  end.

Definition sortEvents (allEvents : list Event) : list Event :=
  Array_sort E compareByDate allEvents.

Definition items_of (v : JSValue) : list JSValue :=
  match v with JArr items => items | _ => [] end.

Definition handle (request : NextRequest) : M E NextResponse :=
  body <- lift (json request) ;;
  '(urls, apiKey) <- lift (destructure body) ;;
  if noUrls urls then
    ret (NextResponse_json (ErrorBody "No URLs provided") (Some 400%Z))
  else if negb (truthy apiKey) then
    ret (NextResponse_json (ErrorBody "OpenAI API key is required") (Some 400%Z))
  else
    allEvents <- forEachUrl apiKey (items_of urls) [] ;;
    ret (NextResponse_json (EventsBody (sortEvents allEvents)) None).

Definition errorMessage (error : Thrown) : string :=
  match error with
  | ThrownError message => message
  | ThrownOther => "An error occurred"
  end.

Definition POST (request : NextRequest) : M E NextResponse :=
  try_catch (handle request)
    (fun error => ret (NextResponse_json (ErrorBody (errorMessage error)) (Some 500%Z))).

End Pipeline.

(* ====================================================================== *)
(** * Vocabulary of the specification *)
(* ====================================================================== *)

(** The value of a key of an object, [JUndefined] when the key is missing
    (and for [null], which has no keys). *)
Definition field (v : JSValue) (k : string) : JSValue :=
  match get_prop v k with
  | inr x => x
  | inl _ => JUndefined
  end.

(** "urls is missing, not an array, or an empty array". *)
Definition UrlsMissingOrEmpty (urls : JSValue) : Prop :=
  urls = JUndefined \/ Array_isArray urls = false \/ urls = JArr [].

(** "apiKey is missing or empty". *)
Definition KeyMissingOrEmpty (apiKey : JSValue) : Prop :=
  apiKey = JUndefined \/ apiKey = JStr EmptyString.

(** The values JavaScript counts as false: missing, [null], [false], zero
    and the empty string. *)
Definition Falsy (v : JSValue) : Prop :=
  v = JUndefined \/ v = JNull \/ v = JBool false \/
  (exists q, v = JNum q /\ Qnum q = 0%Z) \/ v = JStr EmptyString.

(** "the element's value, or the sentinel when absent". *)
Definition valueOrWhenAbsent (v sentinel : JSValue) : JSValue :=
  match v with
  | JUndefined => sentinel
  | _ => v
  end.

(** The first usable (truthy) candidate, else the default. *)
Fixpoint firstUsable (candidates : list JSValue) (default : JSValue) : JSValue :=
  match candidates with
  | [] => default
  | c :: rest => if truthy c then c else firstUsable rest default
  end.

(** The normalization policy, field by field: fallbacks apply to a value
    that is not usable (missing or otherwise falsy); [price] and
    [description] are passed through as they are. *)
Definition NormalizedFrom (source element : JSValue) (ev : Event) : Prop :=
  eventName ev = firstUsable [field element "eventName"; field element "name";
                              field element "title"] (JStr "Unknown Event") /\
  date ev = firstUsable [field element "date"] (JStr "TBA") /\
  time ev = firstUsable [field element "time"] (JStr "TBA") /\
  url ev = firstUsable [field element "url"] source /\
  price ev = field element "price" /\
  description ev = field element "description".

(** An element of the array that is a value with keys to read: not
    [null]. *)
Definition Readable (element : JSValue) : Prop :=
  element <> JNull /\ element <> JUndefined.

(** The pipeline of one URL and what it adds to the aggregate: its events,
    or nothing when rendering or extraction threw. *)
Definition urlPipeline (E : Env) (openai url : JSValue) : M E (list Event) :=
  (bind (scrapeWebsite E url)
        (fun r => extractEventsWithGPT E (fst r) (snd r) url openai)).

Definition urlEvents (E : Env) (openai url : JSValue) (st : State E)
  : list Event * State E :=
  match urlPipeline E openai url st with
  | (inr events, st') => (events, st')
  | (inl _, st') => ([], st')
  end.

(** The URLs one after the other, each starting in the world the one
    before it left. *)
Fixpoint batch (E : Env) (openai : JSValue) (urls : list JSValue) (st : State E)
  : list (list Event) * State E :=
  match urls with
  | [] => ([], st)
  | url :: rest =>
      let '(events, st1) := urlEvents E openai url st in
      let '(more, st2) := batch E openai rest st1 in
      (events :: more, st2)
  end.

(** The URLs rendered, in the order of the call log. *)
Definition renders (cs : list Call) : list JSValue :=
  flat_map (fun c => match c with Render u => [u] | Extract _ => [] end) cs.

(** The element mentions the keyword in its text, its class or its id,
    as they are read from an element whose text and id are its own. *)
Definition mentions (keyword : string) (el : Node) : bool :=
  Str.includes (Str.toLowerCase (DOM.textContent el)) keyword
  || Str.includes (printedLowerCased (el_className el)) keyword
  || Str.includes (Str.toLowerCase (DOM.id el)) keyword.

(** The text and the id of the element are its own: no control of a form
    takes their place. *)
Definition ownTextAndId (el : Node) : bool :=
  match namedControls "textContent" el, namedControls "id" el with
  | [], [] => true
  | _, _ => false
  end.

(** The names under which the callback reads the document and its
    elements. *)
Definition propertiesRead : list string :=
  ["textContent"; "className"; "id"; "childNodes"; "nodeType"; "tagName";
   "querySelector"; "querySelectorAll"; "body"].

(** An HTML element that is not named after one of them. *)
Definition plainElement (n : Node) : bool :=
  isHTMLElement n && negb (existsb (fun property => isNamed property n) propertiesRead).

(** A document of HTML elements none of which has the name of a property
    the callback reads: the document and its forms give the callback their
    own properties. *)
Definition plainDocument (d : Document) : bool :=
  forallb plainElement (DOM.elements (documentElement d)).

(** An element qualifies for a keyword. *)
Definition qualifies (keyword : string) (el : Node) : bool :=
  mentions keyword el && longEnough el.

(** What one appended element adds to the accumulator: its structured
    text and a blank line. *)
Definition piece (el : Node) : string := getTextWithStructure el ++ LF ++ LF.

(** The elements of the document, each with its position in document
    order. *)
Definition numbered (d : Document) : list (nat * Node) :=
  let els := DOM.elements (documentElement d) in
  combine (seq 0 (List.length els)) els.

(** The elements appended to the accumulator, in the order of appending:
    for each keyword in turn, the elements that qualify for it. *)
Definition appended (d : Document) : list (nat * Node) :=
  flat_map (fun keyword => filter (fun p => qualifies keyword (snd p)) (numbered d))
           eventKeywords.

Fixpoint concatStrings (l : list string) : string :=
  match l with
  | [] => EmptyString
  | x :: rest => x ++ concatStrings rest
  end.

(** The time value of an event's date; [NaN] also for a date of which no
    Date can be made. *)
Definition timeOf (E : Env) (e : Event) : Number :=
  match new_Date E (date e) with
  | inr t => t
  | inl _ => NaN
  end.

(** The same as an integer, for an event whose date parses. *)
Definition timeKey (E : Env) (e : Event) : Z :=
  match timeOf E e with
  | Num t => t
  | NaN => 0%Z
  end.


(* ====================================================================== *)
(** * A small concrete platform, for running the pipeline *)
(* ====================================================================== *)

Module Demo.

Definition el (tag : string) (attrs : list (string * string)) (cs : list Node) : Node :=
  ElementNode tag attrs cs.

Definition longText : string :=
  "Doors open at seven and the house band plays two sets tonight.".

(** A venue page: an ld+json script in the head, a calendar block whose
    text names no keyword, and a footer. *)
Definition venuePage : Document :=
  mkDocument "https://www.bluenote.net/newyork/" []
    [ el "HEAD" []
        [ el "TITLE" [] [TextNode "Blue Note"];
          el "SCRIPT" [("type", "application/ld+json")]
            [TextNode "{ 'type': 'MusicEvent' }"] ];
      el "BODY" []
        [ el "DIV" [("class", "Calendar-grid")] [el "P" [] [TextNode longText]];
          el "FOOTER" [] [TextNode " contact "] ] ].

(** A page on which nothing qualifies, with a [main]. *)
Definition plainPage : Document :=
  mkDocument "https://mywww.example.com/" []
    [ el "BODY" []
        [ el "NAV" [] [TextNode "home"];
          el "MAIN" [] [el "H1" [] [TextNode " Band X "]; TextNode "March 15"] ] ].

(** A page on which nothing qualifies, without a [main]. *)
Definition barePage : Document :=
  mkDocument "https://bare.test/" []
    [ el "BODY" [] [el "P" [] [TextNode "Band Y"]] ].

Definition bluenote : JSValue := JStr "https://www.bluenote.net/newyork/".
Definition example : JSValue := JStr "https://mywww.example.com/".
Definition bare : JSValue := JStr "https://bare.test/".
Definition down : JSValue := JStr "https://down.test/".

Definition sameUrl (a b : JSValue) : bool :=
  match a, b with
  | JStr x, JStr y => String.eqb x y
  | _, _ => false
  end.

Definition load (url : JSValue) (w : nat) : Outcome Document * nat :=
  if sameUrl url bluenote then (inr venuePage, S w)
  else if sameUrl url example then (inr plainPage, S w)
  else if sameUrl url bare then (inr barePage, S w)
  else (inl (ThrownError "net::ERR_NAME_NOT_RESOLVED"), S w).

Definition shoot (url : JSValue) (w : nat) : Outcome string * nat :=
  (inr "c2NyZWVu", S w).

(** The model answers by page; for the bare page the reply is not JSON. *)
Definition reply (apiKey : JSValue) (content screenshot : string) (url : JSValue) (w : nat)
  : Outcome (option string) * nat :=
  if sameUrl url bluenote then (inr (Some "two events"), S w)
  else if sameUrl url example then (inr (Some "one event"), S w)
  else (inr (Some "Sorry, I cannot help"), S w).

Definition twoEvents : JSValue :=
  JObj [("events",
         JArr [ JObj [("eventName", JStr "Late Set"); ("date", JStr "2025-03-16");
                      ("time", JStr EmptyString); ("price", JStr "$20")];
                JObj [("title", JStr "Early Set"); ("date", JStr "2025-03-15");
                      ("venue", JStr "Blue Note"); ("url", JStr "https://www.bluenote.net/e/1")] ])].

Definition oneEvent : JSValue :=
  JObj [("data", JArr [ JObj [("name", JStr "Band X")] ])].

Definition parse (text : string) : Outcome JSValue :=
  if String.eqb text "two events" then inr twoEvents
  else if String.eqb text "one event" then inr oneEvent
  else if String.eqb text "null" then inr JNull
  else inl (ThrownError "Unexpected token in JSON").

(** The host of a plain [scheme://host/path] address. *)
Fixpoint upTo (stop : ascii) (s : string) : string :=
  match s with
  | EmptyString => EmptyString
  | String c s' => if Ascii.eqb c stop then EmptyString else String c (upTo stop s')
  end.

Fixpoint afterScheme (s : string) : option string :=
  if Str.startsWith "://" s then Some (Str.drop 3 s)
  else match s with
       | EmptyString => None
       | String _ s' => afterScheme s'
       end.

Definition hostname (url : JSValue) : Outcome string :=
  match url with
  | JStr s =>
      match afterScheme s with
      | Some rest => inr (Str.toLowerCase (upTo "/" rest))
      | None => inl (ThrownError "Invalid URL")
      end
  | _ => inl (ThrownError "Invalid URL")
  end.

(** Dates of the form 2025-03-DD, counted in days. *)
Definition timeValue (v : JSValue) : Number :=
  match v with
  | JStr s =>
      if String.eqb s "2025-03-15" then Num 15
      else if String.eqb s "2025-03-16" then Num 16
      else NaN
  | _ => NaN
  end.

Definition env : Env :=
  mkEnv nat load shoot reply parse hostname timeValue (fun cmp l => stableSort cmp l).

Definition start : State env := mkState (0%nat : World env) [].

Definition request (urls apiKey : JSValue) : NextRequest :=
  mkRequest (inr (JObj [("urls", urls); ("apiKey", apiKey)])).

(** Events with a date that does not parse, and with one that does. *)
Definition tba (name : string) : Event :=
  mkEvent (JStr "venue") (JStr name) (JStr "TBA") (JStr "TBA") JUndefined JUndefined
          (JStr "https://bare.test/").

Definition dated (name day : string) : Event :=
  mkEvent (JStr "venue") (JStr name) (JStr day) (JStr "TBA") JUndefined JUndefined
          (JStr "https://bare.test/").

End Demo.

(** The same platform with another sort: it sorts stably when the
    comparator is consistent for the array, as ECMAScript asks, and turns
    the array round when it is not, which ECMAScript allows. *)
Module Adverse.

Definition sort {A} (comparefn : A -> A -> Number) (l : list A) : list A :=
  if consistentOn comparefn l then stableSort comparefn l else rev l.

Definition env : Env :=
  mkEnv nat Demo.load Demo.shoot Demo.reply Demo.parse Demo.hostname Demo.timeValue
        (fun cmp l => sort cmp l).

End Adverse.

(* ====================================================================== *)
(** * The page: the component [Home] of [app/page.tsx] *)
(* ====================================================================== *)

(** The handlers of the component, each as the change it makes to the
    state it was rendered with.  [uuidv4()] and [new Date()] are given to
    [createNewList] as arguments; [fetch] and the conversion of a value to
    a string are fields of [Browser]. *)
Module Page.

Record URLList : Type := mkURLList {
  id : string;
  name : string;
  urls : list string;
  createdAt : Z
}.

(** The state variables of the component. *)
Record State : Type := mkState {
  lists : list URLList;
  selectedListId : string;
  newListName : string;
  newUrl : string;
  events : JSValue;
  loading : bool;
  error : option string;
  apiKey : string;
  showApiKey : bool
}.

Definition initial : State :=
  mkState [] EmptyString EmptyString EmptyString (JArr []) false None EmptyString false.

Definition setLists (v : list URLList) (s : State) : State :=
  mkState v (selectedListId s) (newListName s) (newUrl s) (events s) (loading s)
          (error s) (apiKey s) (showApiKey s).

Definition setSelectedListId (v : string) (s : State) : State :=
  mkState (lists s) v (newListName s) (newUrl s) (events s) (loading s)
          (error s) (apiKey s) (showApiKey s).

Definition setNewListName (v : string) (s : State) : State :=
  mkState (lists s) (selectedListId s) v (newUrl s) (events s) (loading s)
          (error s) (apiKey s) (showApiKey s).

Definition setNewUrl (v : string) (s : State) : State :=
  mkState (lists s) (selectedListId s) (newListName s) v (events s) (loading s)
          (error s) (apiKey s) (showApiKey s).

Definition setEvents (v : JSValue) (s : State) : State :=
  mkState (lists s) (selectedListId s) (newListName s) (newUrl s) v (loading s)
          (error s) (apiKey s) (showApiKey s).

Definition setLoading (v : bool) (s : State) : State :=
  mkState (lists s) (selectedListId s) (newListName s) (newUrl s) (events s) v
          (error s) (apiKey s) (showApiKey s).

Definition setError (v : option string) (s : State) : State :=
  mkState (lists s) (selectedListId s) (newListName s) (newUrl s) (events s) (loading s)
          v (apiKey s) (showApiKey s).

(** [!text.trim()]. *)
Definition blank (text : string) : bool := negb (Str.nonEmpty (Str.trim text)).

Definition createNewList (uuid : string) (now : Z) (s : State) : State :=
  if blank (newListName s) then s
  else
    let newList := mkURLList uuid (newListName s) [] now in
    setSelectedListId (id newList)
      (setNewListName EmptyString
         (setLists (lists s ++ [newList])%list s)).

Definition deleteList (id0 : string) (s : State) : State :=
  let s1 := setLists (filter (fun list => negb (String.eqb (id list) id0)) (lists s)) s in
  if String.eqb (selectedListId s) id0 then setSelectedListId EmptyString s1 else s1.

Definition addUrlToList (s : State) : State :=
  if blank (newUrl s) || negb (Str.nonEmpty (selectedListId s)) then s
  else
    setNewUrl EmptyString
      (setLists
         (map (fun list =>
                 if String.eqb (id list) (selectedListId s)
                 then mkURLList (id list) (name list) (urls list ++ [newUrl s])%list
                                (createdAt list)
                 else list)
              (lists s))
         s).

Definition removeUrlFromList (url : string) (s : State) : State :=
  setLists
    (map (fun list =>
            if String.eqb (id list) (selectedListId s)
            then mkURLList (id list) (name list)
                           (filter (fun u => negb (String.eqb u url)) (urls list))
                           (createdAt list)
            else list)
         (lists s))
    s.

(** [lists.find(list => list.id === selectedListId)]. *)
Definition selectedList (s : State) : option URLList :=
  find (fun list => String.eqb (id list) (selectedListId s)) (lists s).

(** What [fetch] comes to: a throw (no answer), or an answer with its
    status and what [response.json()] gives. *)
Inductive FetchResult : Type :=
| FetchThrows (e : Thrown)
| FetchResponse (status : Z) (data : Outcome JSValue).

Record Browser : Type := mkBrowser {
  Net : Type;
  fetch : JSValue -> Net -> FetchResult * Net;
  ToString : JSValue -> string
}.

(** The body of the request: [{ urls: selectedList.urls, apiKey }] as the
    route reads it back. *)
Definition requestBody (selected : URLList) (key : string) : JSValue :=
  JObj [("urls", JArr (map JStr (urls selected))); ("apiKey", JStr key)].

(** [response.ok]. *)
Definition ok (status : Z) : bool := ((200 <=? status) && (status <=? 299))%Z.

(** A status in a template string. *)
Definition decimal (status : Z) : string :=
  DecimalString.NilZero.string_of_int (Z.to_int status).

(** [new Error(v).message]. *)
Definition messageOf (B : Browser) (v : JSValue) : string :=
  match v with
  | JStr text => text
  | _ => ToString B v
  end.

(** The part of the [try] after [fetch]: the value given to [setEvents],
    or what is thrown. *)
Definition receive (B : Browser) (r : FetchResult) : Outcome JSValue :=
  match r with
  | FetchThrows e => inl e
  | FetchResponse status data =>
      if negb (ok status)
      then inl (ThrownError ("HTTP error! status: " ++ decimal status))
      else
        match data with
        | inl e => inl e
        | inr d =>
            match get_prop d "error" with
            | inl e => inl e
            | inr err =>
                if truthy err then inl (ThrownError (messageOf B err))
                else
                  match get_prop d "events" with
                  | inl e => inl e
                  | inr evs => inr (js_or evs (JArr []))
                  end
            end
        end
  end.

Definition scrapeMessage (err : Thrown) : string :=
  match err with
  | ThrownError message => message
  | ThrownOther => "An error occurred while scraping"
  end.

Definition scrapeEvents (B : Browser) (s : State) (net : Net B) : State * Net B :=
  if negb (Str.nonEmpty (selectedListId s)) || negb (Str.nonEmpty (apiKey s)) then
    (setError (Some "Please select a list and provide an OpenAI API key") s, net)
  else
    match selectedList s with
    | None => (setError (Some "Selected list has no URLs") s, net)
    | Some selected =>
        if (List.length (urls selected) =? 0)%nat then
          (setError (Some "Selected list has no URLs") s, net)
        else
          let s1 := setEvents (JArr []) (setError None (setLoading true s)) in
          let '(answer, net') := fetch B (requestBody selected (apiKey s)) net in
          let s2 := match receive B answer with
                    | inr evs => setEvents evs s1
                    | inl err => setError (Some (scrapeMessage err)) s1
                    end in
          (setLoading false s2, net')
    end.

(** The ids of the lists, in order. *)
Definition ids (s : State) : list string := map id (lists s).

(** The URLs of the list with a given id. *)
Definition urlsOf (id0 : string) (s : State) : option (list string) :=
  option_map urls (find (fun list => String.eqb (id list) id0) (lists s)).

End Page.

(** ** The route as the page reaches it *)

(** What [JSON.stringify] makes of an event: the keys whose value is
    [undefined] are left out. *)
Definition eventJSON (ev : Event) : JSValue :=
  JObj (filter (fun kv => match snd kv with JUndefined => false | _ => true end)
          [("venue", venue ev); ("eventName", eventName ev); ("date", date ev);
           ("time", time ev); ("price", price ev); ("description", description ev);
           ("url", url ev)]).

Definition responseJSON (r : NextResponse) : JSValue :=
  match payload r with
  | ErrorBody message => JObj [("error", JStr message)]
  | EventsBody evs => JObj [("events", JArr (map eventJSON evs))]
  end.

(** A browser whose [fetch] is answered by the handler [POST]: the body
    sent is the body read, the answer carries the status and the JSON of
    the response. *)
Definition served (E : Env) (toString : JSValue -> string) : Page.Browser :=
  Page.mkBrowser (State E)
    (fun body st =>
       match POST E (mkRequest (inr body)) st with
       | (inr response, st') =>
           (Page.FetchResponse (status response) (inr (responseJSON response)), st')
       | (inl e, st') => (Page.FetchThrows e, st')
       end)
    toString.

(** A page state to run the handlers on: two lists, the first selected,
    a URL typed in, a key. *)
Module PageDemo.

Definition venues : Page.URLList :=
  Page.mkURLList "id-1" "Venues"
    ["https://www.bluenote.net/newyork/"; "https://down.test/";
     "https://www.bluenote.net/newyork/"] 1700000000000.

Definition bands : Page.URLList :=
  Page.mkURLList "id-2" "Bands" [] 1700000000001.

Definition state : Page.State :=
  Page.mkState [venues; bands] "id-1" " Clubs " "https://mywww.example.com/"
               (JArr []) false None "k" false.

(** [String(v)] for the values at hand. *)
Definition toString (v : JSValue) : string :=
  match v with
  | JStr text => text
  | JNull => "null"
  | JUndefined => "undefined"
  | JBool true => "true"
  | JBool false => "false"
  | _ => "[object Object]"
  end.

End PageDemo.

(** More values to run the definitions on. *)
Module Samples.



(** An element with its own venue, and one without. *)
Definition withVenue : JSValue :=
  JObj [("eventName", JStr "Late Set"); ("venue", JStr "Blue Note")].

Definition withoutVenue : JSValue :=
  JObj [("eventName", JStr "Late Set")].

(** Something that is not an address. *)
Definition notAnAddress : JSValue := JStr "bluenote".

Definition valid : NextRequest :=
  Demo.request (JArr [Demo.down; Demo.bluenote; Demo.bare; Demo.example]) (JStr "k").

Definition validBody : JSValue :=
  JObj [("urls", JArr [Demo.down; Demo.bluenote; Demo.bare; Demo.example]);
        ("apiKey", JStr "k")].

(** A value without a string form, as [JSON.parse] gives it for the text
    [{"toString": null}]. *)
Definition unprintable : JSValue := JObj [("toString", JNull)].

(** A body in which it stands between two addresses. *)
Definition mixedBody : JSValue :=
  JObj [("urls", JArr [Demo.bluenote; unprintable; Demo.example]); ("apiKey", JStr "k")].

(** An element of the model's reply whose date is such a value, and the
    event made of it. *)
Definition oddDate : JSValue :=
  JObj [("eventName", JStr "Late Set"); ("venue", JStr "Blue Note");
        ("date", unprintable)].

Definition oddEvent : Event :=
  mkEvent (JStr "Blue Note") (JStr "Late Set") unprintable (JStr "TBA")
          JUndefined JUndefined Demo.bluenote.

(** A listing that names a keyword in its id only. *)
Definition gigs : Node :=
  ElementNode "DIV" [("id", "Gigs-list")] [ElementNode "P" [] [TextNode Demo.longText]].

(** A form for a newsletter, with a hidden field named "id". *)
Definition signup : Node :=
  ElementNode "FORM" [("action", "/subscribe"); ("class", "signup")]
    [ ElementNode "INPUT" [("type", "hidden"); ("name", "id"); ("value", "42")] [];
      ElementNode "INPUT" [("type", "email"); ("name", "email")] [] ].

(** A page with the listing, and the same page with the form as well. *)
Definition listingPage : Document :=
  mkDocument "https://club.test/" [] [ElementNode "BODY" [] [gigs]].

Definition signupPage : Document :=
  mkDocument "https://club.test/" [] [ElementNode "BODY" [] [gigs; signup]].

(** An SVG element whose class names a keyword. *)
Definition badge : Node :=
  ElementNode "svg" [("class", "events-badge")]
    [ElementNode "text" [] [TextNode Demo.longText]].

End Samples.

(* ====================================================================== *)
(** * More vocabulary: the call log, the children of an element *)
(* ====================================================================== *)

(** Whether the rendering of [url] returns, from the state [st]. *)
Definition renderReturns (E : Env) (url : JSValue) (st : State E) : bool :=
  match fst (scrapeWebsite E url st) with
  | inr _ => true
  | inl _ => false
  end.

(** The calls one URL makes: its rendering, then the model when the
    rendering returned. *)
Definition urlCalls (url : JSValue) (rendered : bool) : list Call :=
  Render url :: (if rendered then [Extract url] else []).

(** The calls of a whole batch, URL after URL. *)
Fixpoint batchCalls (E : Env) (openai : JSValue) (urls : list JSValue) (st : State E)
  : list Call :=
  match urls with
  | [] => []
  | url :: rest =>
      (urlCalls url (renderReturns E url st)
       ++ batchCalls E openai rest (snd (urlEvents E openai url st)))%list
  end.

(** The model calls of a log. *)
Definition extracts (cs : list Call) : list JSValue :=
  flat_map (fun c => match c with Extract u => [u] | Render _ => [] end) cs.

(** What one child adds to the text of its parent. *)
Definition childText (child : Node) : string :=
  addChild EmptyString child (getTextWithStructure child).

(** A child that adds nothing: a comment, or text that is all white
    space. *)
Definition silent (child : Node) : bool :=
  match child with
  | CommentNode _ => true
  | TextNode d => negb (Str.nonEmpty (Str.trim d))
  | ElementNode _ _ _ => false
  end.


(** A host with a leading "www." taken off. *)
Definition stripLeadingWww (host : string) : string :=
  if Str.startsWith "www." host then Str.drop 4 host else host.

(** Two events have the same time value. *)
Definition sameTime (E : Env) (a b : Event) : bool :=
  (timeKey E a =? timeKey E b)%Z.


(* ====================================================================== *)
(** * Truthiness and validation *)
(* ====================================================================== *)

Lemma nonEmpty_false (s : string) : Str.nonEmpty s = false <-> s = EmptyString.
Proof.
  unfold Str.nonEmpty. destruct s; simpl; split; intro H; congruence.
Qed.

Lemma truthy_false_iff (v : JSValue) : truthy v = false <-> Falsy v.
Proof.
  unfold Falsy. split.
  - destruct v as [ | | b | q | s | items | fields]; simpl; intro H.
    + auto.
    + auto.
    + right; right; left. now subst.
    + right; right; right; left. exists q. split; [reflexivity|].
      apply negb_false_iff in H. now apply Z.eqb_eq.
    + right; right; right; right. f_equal. now apply nonEmpty_false.
    + discriminate.
    + discriminate.
  - intros [-> | [-> | [-> | [[q [-> Hq]] | ->]]]]; simpl; try reflexivity.
    rewrite Hq. reflexivity.
Qed.

Lemma noUrls_iff (urls : JSValue) : noUrls urls = true <-> UrlsMissingOrEmpty urls.
Proof.
  unfold UrlsMissingOrEmpty, noUrls. split.
  - destruct urls as [ | | b | q | s | items | fields]; simpl; auto.
    destruct items; simpl; auto.
  - intros [-> | [H | ->]]; try reflexivity.
    rewrite H. simpl. rewrite orb_true_r. reflexivity.
Qed.

Lemma nonEmpty_string_truthy (s : string) : s <> EmptyString -> truthy (JStr s) = true.
Proof.
  intro H. simpl. destruct (Str.nonEmpty s) eqn:Hs; [reflexivity|].
  apply nonEmpty_false in Hs. contradiction.
Qed.

(** Reading a key of a body that is neither [null] nor [undefined]. *)
Lemma get_prop_field (v : JSValue) (k : string) :
  v <> JNull -> v <> JUndefined -> get_prop v k = inr (field v k).
Proof.
  intros Hn Hu. unfold field. destruct v; try reflexivity; congruence.
Qed.

Lemma destructure_fields (body : JSValue) :
  body <> JNull -> body <> JUndefined ->
  destructure body = inr (field body "urls", field body "apiKey").
Proof.
  intros Hn Hu. unfold destructure.
  rewrite !get_prop_field by assumption. reflexivity.
Qed.

Lemma destructure_inv (body urls apiKey : JSValue) :
  destructure body = inr (urls, apiKey) ->
  get_prop body "urls" = inr urls /\ get_prop body "apiKey" = inr apiKey.
Proof.
  unfold destructure, andThen.
  destruct (get_prop body "urls") as [e|u]; [discriminate|].
  destruct (get_prop body "apiKey") as [e|k]; [discriminate|].
  intro H. inversion H. auto.
Qed.

(* ====================================================================== *)
(** * The extraction client *)
(* ====================================================================== *)

Section Extraction.
Variable E : Env.

Lemma try_catch_ret_total {A} (body : M E A) (dflt : A) (st : State E) :
  try_catch body (fun _ => ret dflt) st =
    (inr (match fst (body st) with inr a => a | inl _ => dflt end), snd (body st)).
Proof.
  unfold try_catch, ret. destruct (body st) as [[e|a] st']; reflexivity.
Qed.

(** With a URL that has a string form the prompt is made, and the client
    is its [try]. *)
Lemma extract_with_string_form (content screenshot : string) (url openai : JSValue)
      (st : State E) :
  hasStringForm url = true ->
  extractEventsWithGPT E content screenshot url openai st =
    try_catch (extractBody E content screenshot url openai) (fun _ => ret []) st.
Proof.
  intro H. unfold extractEventsWithGPT, bind, lift, templateLiteral. now rewrite H.
Qed.

(** With a URL that has none, making the prompt throws: the client throws
    before it has called anything. *)
Lemma extract_without_string_form (content screenshot : string) (url openai : JSValue)
      (st : State E) :
  hasStringForm url = false ->
  extractEventsWithGPT E content screenshot url openai st =
    (inl (TypeError "Cannot convert object to primitive value"), st).
Proof.
  intro H. unfold extractEventsWithGPT, bind, lift, templateLiteral. now rewrite H.
Qed.

Lemma extract_total (content screenshot : string) (url openai : JSValue) (st : State E) :
  hasStringForm url = true ->
  exists events st',
    extractEventsWithGPT E content screenshot url openai st = (inr events, st').
Proof.
  intro H. rewrite extract_with_string_form by exact H.
  rewrite try_catch_ret_total. eauto.
Qed.

(** The call log after an extraction: one more entry, the model call. *)
Lemma extract_calls (content screenshot : string) (url openai : JSValue) (st : State E) :
  hasStringForm url = true ->
  calls (snd (extractEventsWithGPT E content screenshot url openai st)) =
    (calls st ++ [Extract url])%list.
Proof.
  intro H. rewrite extract_with_string_form by exact H.
  rewrite try_catch_ret_total. simpl.
  unfold extractBody, bind, external.
  destruct (chat_completions_create E openai content screenshot url (world st))
    as [[e|[text|]] w]; simpl; try reflexivity.
  destruct (Str.nonEmpty text); simpl; [|reflexivity].
  unfold lift. destruct (JSON_parse E text) as [e|parsed]; simpl; [reflexivity|].
  destruct (eventsOf parsed) as [e|events]; simpl; reflexivity.
Qed.

End Extraction.

(** C4. For a source URL that has a string form, as every string has:
    whatever the content, the screenshot, the key and the state of the
    world, [extractEventsWithGPT] returns a list of events and does not
    throw; and it returns the empty list when the model call throws, when
    the reply's content is [null] (or empty), when [JSON.parse] throws,
    when the lookup of the events throws, and when the value found for the
    events is not an array. *)
Theorem extractEventsWithGPT_never_throws
  (E : Env) (content screenshot : string) (url openai : JSValue) (st : State E) :
  hasStringForm url = true ->
  (exists events st',
      extractEventsWithGPT E content screenshot url openai st = (inr events, st')) /\
  let result := fst (extractEventsWithGPT E content screenshot url openai st) in
  match fst (chat_completions_create E openai content screenshot url (world st)) with
  | inl _ => result = inr []
  | inr None => result = inr []
  | inr (Some text) =>
      if Str.nonEmpty text then
        match JSON_parse E text with
        | inl _ => result = inr []
        | inr parsed =>
            match eventsOf parsed with
            | inl _ => result = inr []
            | inr events =>
                if Array_isArray events
                then result = inr (match mapEvents E url events with
                                   | inr l => l
                                   | inl _ => []
                                   end)
                else result = inr []
            end
        end
      else result = inr []
  end.
Proof.
  intro Hurl. split; [now apply extract_total|].
  rewrite extract_with_string_form by exact Hurl.
  rewrite try_catch_ret_total. cbn zeta. simpl fst.
  unfold extractBody, bind, external.
  destruct (chat_completions_create E openai content screenshot url (world st))
    as [[e|[text|]] w]; simpl; try reflexivity.
  destruct (Str.nonEmpty text); simpl; [|reflexivity].
  unfold lift. destruct (JSON_parse E text) as [e|parsed]; simpl; [reflexivity|].
  destruct (eventsOf parsed) as [e|events]; simpl; [reflexivity|].
  destruct events; simpl; try reflexivity.
Qed.

(* ====================================================================== *)
(** * The loop over the URLs *)
(* ====================================================================== *)

Section Orchestration.
Variable E : Env.
Variable openai : JSValue.

(** Rendering enters exactly one [Render] in the log, thrown or not. *)
Lemma scrape_calls (url : JSValue) (st : State E) :
  calls (snd (scrapeWebsite E url st)) = (calls st ++ [Render url])%list.
Proof.
  unfold scrapeWebsite, bind, external, continue, lift, ret.
  destruct (page_load E url (world st)) as [[e|doc] w]; simpl; [reflexivity|].
  destruct (shapeContent doc) as [e|content]; simpl; [reflexivity|].
  destruct (page_screenshot E url w) as [[e|shot] w']; reflexivity.
Qed.

(** One turn of the loop, for a URL that has a string form, pushes the
    events of the URL, or nothing. *)
Lemma processUrl_spec (allEvents : list Event) (url : JSValue) (st : State E) :
  hasStringForm url = true ->
  processUrl E openai allEvents url st =
    (inr (allEvents ++ fst (urlEvents E openai url st))%list,
     snd (urlEvents E openai url st)).
Proof.
  intro H.
  unfold processUrl, urlEvents, urlPipeline, try_catch, bind, lift, templateLiteral.
  rewrite H.
  destruct (scrapeWebsite E url st) as [[e|[content screenshot]] st1]; simpl.
  - unfold ret. rewrite app_nil_r. reflexivity.
  - destruct (extract_total E content screenshot url openai st1 H) as [events [st2 Hx]].
    rewrite Hx. reflexivity.
Qed.

(** One turn for a URL that has none: the first line of the [try] throws,
    the first line of the [catch] throws again, and the turn throws,
    having called nothing. *)
Lemma processUrl_abort (allEvents : list Event) (url : JSValue) (st : State E) :
  hasStringForm url = false ->
  processUrl E openai allEvents url st =
    (inl (TypeError "Cannot convert object to primitive value"), st).
Proof.
  intro H. unfold processUrl, try_catch, bind, lift, templateLiteral. now rewrite H.
Qed.

Lemma urlEvents_calls (url : JSValue) (st : State E) :
  hasStringForm url = true ->
  renders (calls (snd (urlEvents E openai url st))) = (renders (calls st) ++ [url])%list.
Proof.
  intro H. unfold urlEvents, urlPipeline, bind.
  pose proof (scrape_calls url st) as Hs.
  destruct (scrapeWebsite E url st) as [[e|[content screenshot]] st1]; simpl in *.
  - rewrite Hs. unfold renders. rewrite flat_map_app. reflexivity.
  - pose proof (extract_calls E content screenshot url openai st1 H) as Hx.
    destruct (extractEventsWithGPT E content screenshot url openai st1)
      as [[e|events] st2]; simpl in *;
      rewrite Hx, Hs; unfold renders; rewrite !flat_map_app; simpl;
      rewrite app_nil_r; reflexivity.
Qed.

(** A URL whose rendering throws adds nothing, and the model is not
    called for it. *)
Lemma urlEvents_render_failed (url : JSValue) (st : State E) (e : Thrown) :
  fst (scrapeWebsite E url st) = inl e ->
  fst (urlEvents E openai url st) = [] /\
  calls (snd (urlEvents E openai url st)) = (calls st ++ [Render url])%list.
Proof.
  intro Hf. unfold urlEvents, urlPipeline, bind.
  pose proof (scrape_calls url st) as Hs.
  destruct (scrapeWebsite E url st) as [[e'|r] st1]; simpl in *; [|discriminate].
  split; [reflexivity | exact Hs].
Qed.

(** The loop over URLs that all have a string form is the batch. *)
Lemma forEachUrl_spec (urls : list JSValue) :
  forallb hasStringForm urls = true ->
  forall (allEvents : list Event) (st : State E),
    forEachUrl E openai urls allEvents st =
      (inr (allEvents ++ concat (fst (batch E openai urls st)))%list,
       snd (batch E openai urls st)).
Proof.
  induction urls as [|url rest IH]; intros Hall allEvents st; simpl.
  - unfold ret. rewrite app_nil_r. reflexivity.
  - simpl in Hall. apply andb_true_iff in Hall. destruct Hall as [Hu Hr].
    unfold bind. rewrite (processUrl_spec _ _ _ Hu). rewrite (IH Hr).
    destruct (urlEvents E openai url st) as [events st1]; simpl.
    destruct (batch E openai rest st1) as [more st2]; simpl.
    rewrite app_assoc. reflexivity.
Qed.

(** The loop at the first URL that has no string form: the URLs before it
    have been processed; the loop throws, and with it go the events
    collected so far; the URLs after it are not looked at. *)
Lemma forEachUrl_abort (before : list JSValue) (bad : JSValue) (after : list JSValue) :
  forallb hasStringForm before = true ->
  hasStringForm bad = false ->
  forall (allEvents : list Event) (st : State E),
    forEachUrl E openai (before ++ bad :: after)%list allEvents st =
      (inl (TypeError "Cannot convert object to primitive value"),
       snd (batch E openai before st)).
Proof.
  induction before as [|url rest IH]; intros Hall Hbad allEvents st; simpl.
  - unfold bind. now rewrite (processUrl_abort _ _ _ Hbad).
  - simpl in Hall. apply andb_true_iff in Hall. destruct Hall as [Hu Hr].
    unfold bind. rewrite (processUrl_spec _ _ _ Hu). rewrite (IH Hr Hbad).
    destruct (urlEvents E openai url st) as [events st1]; simpl.
    destruct (batch E openai rest st1) as [more st2]; reflexivity.
Qed.

Lemma batch_length (urls : list JSValue) :
  forall st : State E, List.length (fst (batch E openai urls st)) = List.length urls.
Proof.
  induction urls as [|url rest IH]; intro st; simpl; [reflexivity|].
  destruct (urlEvents E openai url st) as [events st1].
  specialize (IH st1). destruct (batch E openai rest st1) as [more st2].
  simpl in *. congruence.
Qed.

Lemma batch_renders (urls : list JSValue) :
  forallb hasStringForm urls = true ->
  forall st : State E,
    renders (calls (snd (batch E openai urls st))) = (renders (calls st) ++ urls)%list.
Proof.
  induction urls as [|url rest IH]; intros Hall st; simpl.
  - rewrite app_nil_r. reflexivity.
  - simpl in Hall. apply andb_true_iff in Hall. destruct Hall as [Hu Hr].
    pose proof (urlEvents_calls url st Hu) as Hc.
    destruct (urlEvents E openai url st) as [events st1].
    specialize (IH Hr st1). destruct (batch E openai rest st1) as [more st2].
    simpl in *. rewrite IH, Hc, <- app_assoc. reflexivity.
Qed.

End Orchestration.

(** A list with an element that has no string form, cut at the first one. *)
Lemma first_without_string_form (urls : list JSValue) :
  forallb hasStringForm urls = false ->
  exists before bad after,
    urls = (before ++ bad :: after)%list /\
    forallb hasStringForm before = true /\
    hasStringForm bad = false.
Proof.
  induction urls as [|url rest IH]; simpl; intro H; [discriminate|].
  destruct (hasStringForm url) eqn:Hu; simpl in H.
  - destruct (IH H) as (before & bad & after & -> & Hb & Hbad).
    exists (url :: before), bad, after. simpl. rewrite Hu. auto.
  - exists [], url, rest. auto.
Qed.

Lemma length_concat_sum {A} (ls : list (list A)) :
  List.length (concat ls) = list_sum (map (@List.length A) ls).
Proof.
  induction ls as [|l ls IH]; simpl; [reflexivity|].
  rewrite length_app, IH. reflexivity.
Qed.

(** What [POST] does once the body has been read and taken apart: the two
    guards, the loop, and the outer [catch] for what the loop throws. *)
Lemma POST_steps (E : Env) (request : NextRequest) (body urls apiKey : JSValue)
      (st : State E) :
  json request = inr body ->
  destructure body = inr (urls, apiKey) ->
  POST E request st =
    if noUrls urls then
      (inr (mkResponse (ErrorBody "No URLs provided") 400), st)
    else if negb (truthy apiKey) then
      (inr (mkResponse (ErrorBody "OpenAI API key is required") 400), st)
    else
      match forEachUrl E apiKey (items_of urls) [] st with
      | (inr allEvents, st') =>
          (inr (mkResponse (EventsBody (sortEvents E allEvents)) 200), st')
      | (inl error, st') =>
          (inr (mkResponse (ErrorBody (errorMessage error)) 500), st')
      end.
Proof.
  intros Hj Hd. unfold POST, handle, try_catch, bind, lift.
  rewrite Hj, Hd.
  destruct (noUrls urls); [reflexivity|].
  destruct (negb (truthy apiKey)); [reflexivity|].
  destruct (forEachUrl E apiKey (items_of urls) [] st) as [[e|allEvents] st']; reflexivity.
Qed.

(** The same when every URL has a string form. *)
Lemma POST_unfold (E : Env) (request : NextRequest) (body urls apiKey : JSValue)
      (st : State E) :
  json request = inr body ->
  destructure body = inr (urls, apiKey) ->
  forallb hasStringForm (items_of urls) = true ->
  POST E request st =
    if noUrls urls then
      (inr (mkResponse (ErrorBody "No URLs provided") 400), st)
    else if negb (truthy apiKey) then
      (inr (mkResponse (ErrorBody "OpenAI API key is required") 400), st)
    else
      (inr (mkResponse
              (EventsBody (sortEvents E (concat (fst (batch E apiKey (items_of urls) st)))))
              200),
       snd (batch E apiKey (items_of urls) st)).
Proof.
  intros Hj Hd Hall. rewrite (POST_steps E request body urls apiKey st Hj Hd).
  rewrite (forEachUrl_spec E apiKey (items_of urls) Hall). reflexivity.
Qed.

(** The same when a URL has none. *)
Lemma POST_abort (E : Env) (request : NextRequest) (body apiKey : JSValue)
      (before : list JSValue) (bad : JSValue) (after : list JSValue) (st : State E) :
  json request = inr body ->
  destructure body = inr (JArr (before ++ bad :: after), apiKey) ->
  truthy apiKey = true ->
  forallb hasStringForm before = true ->
  hasStringForm bad = false ->
  POST E request st =
    (inr (mkResponse (ErrorBody "Cannot convert object to primitive value") 500),
     snd (batch E apiKey before st)).
Proof.
  intros Hj Hd Hk Hb Hbad.
  rewrite (POST_steps E request body _ apiKey st Hj Hd).
  assert (Hne : noUrls (JArr (before ++ bad :: after)) = false)
    by (destruct before; reflexivity).
  rewrite Hne, Hk. cbn [negb items_of].
  rewrite (forEachUrl_abort E apiKey before bad after Hb Hbad). reflexivity.
Qed.

(** C2, where the code leaves it. A URL element that has no string form
    (an object with a key "toString", say) is not skipped: the line
    logged at the head of the [try] throws on it, the line logged at the
    head of the [catch] throws again, and that throw leaves the loop.  The
    URLs before it have been rendered and extracted, their events are
    dropped, the URLs after it are not processed, and the answer is an
    error with status 500. *)
Theorem url_without_string_form_aborts_the_batch
  (E : Env) (request : NextRequest) (body apiKey : JSValue)
  (before : list JSValue) (bad : JSValue) (after : list JSValue) (st : State E) :
  json request = inr body ->
  destructure body = inr (JArr (before ++ bad :: after), apiKey) ->
  truthy apiKey = true ->
  forallb hasStringForm before = true ->
  hasStringForm bad = false ->
  (exists message,
      POST E request st =
        (inr (mkResponse (ErrorBody message) 500), snd (batch E apiKey before st))) /\
  renders (calls (snd (POST E request st))) = (renders (calls st) ++ before)%list.
Proof.
  intros Hj Hd Hk Hb Hbad.
  rewrite (POST_abort E request body apiKey before bad after st Hj Hd Hk Hb Hbad).
  split; [eexists; reflexivity|]. cbn [snd]. now apply batch_renders.
Qed.

(* ====================================================================== *)
(** * The validation gate *)
(* ====================================================================== *)

Section CallLog.
Variable E : Env.
Variable openai : JSValue.

Lemma urlEvents_log (url : JSValue) (st : State E) :
  hasStringForm url = true ->
  exists more, calls (snd (urlEvents E openai url st)) = (calls st ++ Render url :: more)%list.
Proof.
  intro H. unfold urlEvents, urlPipeline, bind.
  pose proof (scrape_calls E url st) as Hs.
  destruct (scrapeWebsite E url st) as [[e|[content screenshot]] st1]; simpl in *.
  - exists []. exact Hs.
  - pose proof (extract_calls E content screenshot url openai st1 H) as Hx.
    destruct (extractEventsWithGPT E content screenshot url openai st1)
      as [[e|events] st2]; simpl in *;
      exists [Extract url]; rewrite Hx, Hs, <- app_assoc; reflexivity.
Qed.

(** The loop only adds to the log. *)
Lemma forEachUrl_log (urls : list JSValue) :
  forall (allEvents : list Event) (st : State E),
  exists more,
    calls (snd (forEachUrl E openai urls allEvents st)) = (calls st ++ more)%list.
Proof.
  induction urls as [|url rest IH]; intros allEvents st; simpl.
  - exists []. unfold ret. simpl. now rewrite app_nil_r.
  - unfold bind. destruct (hasStringForm url) eqn:Hu.
    + rewrite (processUrl_spec E openai _ _ _ Hu).
      destruct (urlEvents_log url st Hu) as [m1 H1].
      destruct (IH (allEvents ++ fst (urlEvents E openai url st))%list
                   (snd (urlEvents E openai url st))) as [m2 H2].
      exists (Render url :: m1 ++ m2)%list.
      rewrite H2, H1, <- app_assoc. reflexivity.
    + rewrite (processUrl_abort E openai _ _ _ Hu). exists []. simpl.
      now rewrite app_nil_r.
Qed.

(** A first URL that has a string form is the first to be rendered. *)
Lemma forEachUrl_log_first (url : JSValue) (rest : list JSValue)
      (allEvents : list Event) (st : State E) :
  hasStringForm url = true ->
  exists more,
    calls (snd (forEachUrl E openai (url :: rest) allEvents st))
    = (calls st ++ Render url :: more)%list.
Proof.
  intro Hu. simpl. unfold bind. rewrite (processUrl_spec E openai _ _ _ Hu).
  destruct (urlEvents_log url st Hu) as [m1 H1].
  destruct (forEachUrl_log rest (allEvents ++ fst (urlEvents E openai url st))%list
              (snd (urlEvents E openai url st))) as [m2 H2].
  exists (m1 ++ m2)%list. rewrite H2, H1, <- app_assoc. reflexivity.
Qed.

End CallLog.

(** A body that cannot be read, or that is [null], is answered by the
    outer [catch]: status 500, nothing rendered. *)
Lemma POST_unreadable_body (E : Env) (request : NextRequest) (st : State E) :
  (exists e, json request = inl e) \/ json request = inr JNull ->
  exists msg, POST E request st = (inr (mkResponse (ErrorBody msg) 500), st).
Proof.
  intros [[e He] | He]; unfold POST, handle, try_catch, bind, lift; rewrite He; simpl;
    eexists; reflexivity.
Qed.

(** C1, as the code has it. For every request whose body is read as JSON
    other than [null]: the handler answers with the validation error (an
    error string, status 400, no events) and leaves the world and the
    call log as they were, exactly when [urls] is missing, not an array or
    an empty array, or [apiKey] is falsy (missing, [null], [false], zero
    or the empty string); in every other case no validation error comes
    later: the answer is the events with status 200, or an error with
    status 500, never one with status 400. *)
Theorem POST_validation_gate
  (E : Env) (request : NextRequest) (body : JSValue) (st : State E) :
  json request = inr body ->
  body <> JNull ->
  body <> JUndefined ->
  let urls := field body "urls" in
  let apiKey := field body "apiKey" in
  ((UrlsMissingOrEmpty urls \/ Falsy apiKey) <->
   (exists msg, POST E request st = (inr (mkResponse (ErrorBody msg) 400), st))) /\
  (~ (UrlsMissingOrEmpty urls \/ Falsy apiKey) ->
   exists response st',
     POST E request st = (inr response, st') /\
     status response <> 400%Z /\
     ((exists events, response = mkResponse (EventsBody events) 200) \/
      (exists msg, response = mkResponse (ErrorBody msg) 500))).
Proof.
  intros Hj Hn Hu urls apiKey.
  pose proof (POST_steps E request body urls apiKey st Hj
                (destructure_fields body Hn Hu)) as HP.
  destruct (noUrls urls) eqn:Hurls.
  - (* no URLs *)
    assert (Hbad : UrlsMissingOrEmpty urls) by now apply noUrls_iff.
    split.
    + split; [intros _; eexists; exact HP | intros _; now left].
    + intros Hgood. exfalso. apply Hgood. now left.
  - assert (Hok : ~ UrlsMissingOrEmpty urls).
    { intro Hbad. apply noUrls_iff in Hbad. congruence. }
    destruct (truthy apiKey) eqn:Hkey; simpl in HP.
    + (* past the gate *)
      assert (Hnf : ~ Falsy apiKey).
      { intro Hf. apply truthy_false_iff in Hf. congruence. }
      destruct (forEachUrl E apiKey (items_of urls) [] st) as [[e|allEvents] st'].
      * split.
        -- split; [intros [H|H]; contradiction|].
           intros [msg Hmsg]. rewrite HP in Hmsg. discriminate.
        -- intros _. eexists. exists st'. split; [exact HP|].
           split; [discriminate|]. right. eexists. reflexivity.
      * split.
        -- split; [intros [H|H]; contradiction|].
           intros [msg Hmsg]. rewrite HP in Hmsg. discriminate.
        -- intros _. eexists. exists st'. split; [exact HP|].
           split; [discriminate|]. left. eexists. reflexivity.
    + (* no key *)
      assert (Hf : Falsy apiKey) by now apply truthy_false_iff.
      split.
      * split; [intros _; eexists; exact HP | intros _; now right].
      * intros Hgood. exfalso. apply Hgood. now right.
Qed.

(** C10. Validation looks at nothing but the shape of [urls] and the
    truthiness of [apiKey]: when [urls] is an array with at least one
    element, whatever the elements are, and [apiKey] is truthy, the
    request is not turned away: the loop over the URLs is run, and the
    answer is made of what the loop gives, so it does not have status
    400; a first element that has a string form, as every string and
    every number has, is handed to the renderer; when every element has
    one the answer is the events response; and every non-empty string is
    a truthy key. *)
Theorem validation_ignores_url_contents
  (E : Env) (request : NextRequest) (body first apiKey : JSValue) (rest : list JSValue)
  (st : State E) :
  json request = inr body ->
  destructure body = inr (JArr (first :: rest), apiKey) ->
  truthy apiKey = true ->
  POST E request st =
    match forEachUrl E apiKey (first :: rest) [] st with
    | (inr allEvents, st') =>
        (inr (mkResponse (EventsBody (sortEvents E allEvents)) 200), st')
    | (inl error, st') =>
        (inr (mkResponse (ErrorBody (errorMessage error)) 500), st')
    end /\
  (exists response st',
      POST E request st = (inr response, st') /\
      status response <> 400%Z /\
      (hasStringForm first = true ->
       exists more, calls st' = (calls st ++ Render first :: more)%list) /\
      (forallb hasStringForm (first :: rest) = true ->
       exists events, response = mkResponse (EventsBody events) 200)) /\
  (forall s : string, hasStringForm (JStr s) = true) /\
  (forall q : Q, hasStringForm (JNum q) = true) /\
  (forall key : string, key <> EmptyString -> truthy (JStr key) = true).
Proof.
  intros Hj Hd Hk.
  pose proof (POST_steps E request body (JArr (first :: rest)) apiKey st Hj Hd) as HP.
  simpl noUrls in HP. cbn iota in HP. rewrite Hk in HP. cbn [negb items_of] in HP.
  split; [exact HP|].
  split; [|split; [reflexivity | split; [reflexivity | apply nonEmpty_string_truthy]]].
  assert (Hlog : hasStringForm first = true ->
                 exists more,
                   calls (snd (forEachUrl E apiKey (first :: rest) [] st))
                   = (calls st ++ Render first :: more)%list)
    by (intro Hf; now apply forEachUrl_log_first).
  assert (Hall : forallb hasStringForm (first :: rest) = true ->
                 exists events,
                   fst (forEachUrl E apiKey (first :: rest) [] st) = inr events)
    by (intro Ha; rewrite (forEachUrl_spec E apiKey _ Ha); eexists; reflexivity).
  destruct (forEachUrl E apiKey (first :: rest) [] st) as [[e|allEvents] st'];
    eexists; exists st'; (split; [exact HP|]); (split; [discriminate|]);
    (split; [exact Hlog|]); intro Ha; destruct (Hall Ha) as [events Hev];
    simpl in Hev; [discriminate | eexists; reflexivity].
Qed.

(* ====================================================================== *)
(** * Normalization of the model's events *)
(* ====================================================================== *)

Lemma firstUsable_absent (default : JSValue) : firstUsable [JUndefined] default = default.
Proof. reflexivity. Qed.

Lemma field_missing (k : string) (fields : list (string * JSValue)) :
  (forall v, ~ In (k, v) fields) -> field (JObj fields) k = JUndefined.
Proof.
  unfold field. simpl. induction fields as [|[k' v'] rest IH]; intro H; simpl.
  - reflexivity.
  - destruct (String.eqb k k') eqn:Hk.
    + apply String.eqb_eq in Hk. subst k'. exfalso. apply (H v'). now left.
    + apply IH. intros v Hin. apply (H v). now right.
Qed.

Lemma js_or_three (a b c d : JSValue) :
  js_or (js_or (js_or a b) c) d = firstUsable [a; b; c] d.
Proof.
  unfold js_or. simpl.
  destruct (truthy a) eqn:Ha; [now rewrite Ha, Ha|].
  destruct (truthy b) eqn:Hb; [now rewrite Hb|].
  destruct (truthy c) eqn:Hc; reflexivity.
Qed.

Lemma js_or_two (a b d : JSValue) :
  js_or (js_or a b) d = firstUsable [a; b] d.
Proof.
  unfold js_or. simpl.
  destruct (truthy a) eqn:Ha; [now rewrite Ha|].
  destruct (truthy b) eqn:Hb; reflexivity.
Qed.

Section Normalization.
Variable E : Env.

Lemma normalizeEvent_inv (source element : JSValue) (ev : Event) :
  normalizeEvent E source element = inr ev -> NormalizedFrom source element ev.
Proof.
  unfold normalizeEvent, NormalizedFrom, field, andThen.
  destruct (get_prop element "venue") as [e|v] eqn:Hv; [discriminate|].
  destruct (orElse v (hostVenue E source)) as [e|v']; [discriminate|].
  destruct element; simpl in Hv |- *; try discriminate;
    intro H; injection H as <-; cbn [eventName date time url price description];
    rewrite js_or_three; repeat split; reflexivity.
Qed.

Lemma mapOutcome_normalize (source : JSValue) (items : list JSValue) :
  forall evs, mapOutcome (normalizeEvent E source) items = inr evs ->
              Forall2 (NormalizedFrom source) items evs.
Proof.
  induction items as [|x rest IH]; simpl; intros evs H.
  - inversion H. constructor.
  - destruct (normalizeEvent E source x) as [e|ev] eqn:Hx; [discriminate|].
    destruct (mapOutcome (normalizeEvent E source) rest) as [e|more]; [discriminate|].
    inversion H; subst. constructor.
    + now apply normalizeEvent_inv.
    + now apply IH.
Qed.

Lemma eventsOf_inv (parsed events : JSValue) :
  eventsOf parsed = inr events ->
  events = firstUsable [field parsed "events"; field parsed "data"] (JArr []).
Proof.
  unfold eventsOf, andThen, field.
  destruct parsed; simpl; try discriminate; intro H; injection H as <-;
    apply js_or_two.
Qed.

Lemma normalizeEvent_total (source element : JSValue) (host : string) :
  URL_hostname E source = inr host ->
  Readable element ->
  exists ev, normalizeEvent E source element = inr ev.
Proof.
  intros Hh [Hn Hu]. unfold normalizeEvent, andThen.
  rewrite !get_prop_field by assumption.
  unfold orElse, hostVenue, andThen. rewrite Hh.
  destruct (truthy (field element "venue")); eexists; reflexivity.
Qed.

Lemma mapOutcome_total (source : JSValue) (items : list JSValue) (host : string) :
  URL_hostname E source = inr host ->
  Forall Readable items ->
  exists evs, mapOutcome (normalizeEvent E source) items = inr evs.
Proof.
  intros Hh Hall. induction Hall as [|x rest Hx _ IH]; simpl.
  - eexists; reflexivity.
  - destruct (normalizeEvent_total source x host Hh Hx) as [ev Hev].
    destruct IH as [evs Hevs]. rewrite Hev, Hevs. eexists; reflexivity.
Qed.

(** The venue default when the element has no usable venue. *)
Lemma venue_default (source : JSValue) (fields : list (string * JSValue)) (host : string) :
  URL_hostname E source = inr host ->
  truthy (lookup_field "venue" fields) = false ->
  exists ev, normalizeEvent E source (JObj fields) = inr ev /\
             venue ev = JStr (Str.replace "www." EmptyString host).
Proof.
  intros Hh Hv. unfold normalizeEvent, andThen, orElse, hostVenue. simpl.
  rewrite Hv, Hh. simpl. eexists. split; reflexivity.
Qed.

End Normalization.

(** C5, as the code has it. The array of the model's events is the value
    under [events] when that is usable, else the value under [data] when
    that is usable, else the empty array.  Whenever the normalization of
    that array completes, every element has its normalized event, in order,
    with: [eventName] the first usable of the element's [eventName], [name]
    and [title], else "Unknown Event"; [date] and [time] the element's
    value when usable, else "TBA"; [url] the element's when usable, else
    the source URL; [price] and [description] exactly the element's, so
    absent when omitted.  Usable means truthy: a missing, [null], [false],
    zero or empty-string value is replaced like a missing one.  And the
    normalization does complete when no element is [null] and the source
    URL has a host. *)
Theorem normalization_policy
  (E : Env) (source parsed : JSValue) (items : list JSValue) :
  eventsOf parsed = inr (JArr items) ->
  JArr items = firstUsable [field parsed "events"; field parsed "data"] (JArr []) /\
  (forall evs, mapEvents E source (JArr items) = inr evs ->
               Forall2 (NormalizedFrom source) items evs) /\
  (forall host, URL_hostname E source = inr host ->
                Forall Readable items ->
                exists evs, mapEvents E source (JArr items) = inr evs).
Proof.
  intros Hev. split; [now apply eventsOf_inv|]. split.
  - intros evs Hmap. simpl in Hmap. now apply mapOutcome_normalize with (E := E).
  - intros host Hh Hall. simpl. now apply mapOutcome_total with (host := host).
Qed.

(** C6, at an address whose host has "www." inside and not in front: the
    element has no usable venue, and the venue it gets is the host with
    that inner "www." cut out. *)
Theorem inner_www_is_cut_out
  (E : Env) (source : JSValue) (fields : list (string * JSValue)) :
  URL_hostname E source = inr "mywww.example.com" ->
  truthy (lookup_field "venue" fields) = false ->
  exists ev, normalizeEvent E source (JObj fields) = inr ev /\
             venue ev = JStr "myexample.com".
Proof.
  intros Hh Hv.
  destruct (venue_default E source fields _ Hh Hv) as [ev [Hev Hvenue]].
  exists ev. split; [exact Hev|]. rewrite Hvenue. reflexivity.
Qed.

(** What [replace] does to a host that begins with "www.": the four
    characters go. *)
Lemma replace_leading_www (rest : string) :
  Str.replace "www." EmptyString ("www." ++ rest) = rest.
Proof. reflexivity. Qed.

(** A host without "www." anywhere stays as it is. *)
Lemma replace_without_www (host : string) :
  Str.includes host "www." = false -> Str.replace "www." EmptyString host = host.
Proof.
  induction host as [|c host IH]; intro H.
  - reflexivity.
  - cbn [Str.includes] in H. apply orb_false_iff in H. destruct H as [H1 H2].
    cbn [Str.replace]. rewrite H1. f_equal. now apply IH.
Qed.

(* ====================================================================== *)
(** * The comparator of the sort *)
(* ====================================================================== *)

(** C9, as the code has it. A Date can be made of a date that has a
    string form, as every string has: for such dates the body of the
    comparator's [try] returns the difference of the two time values and
    the [catch] is not entered; when either date does not parse the
    difference is [NaN], which the sort reads as equal, also when the
    other date does parse.  Of a date without a string form no Date can be
    made: the [try] throws, the [catch] is entered and the comparator
    returns 0.  So the comparator always returns, and a pair in which a
    date gives no time value counts as equal. *)
Theorem compareByDate_total (E : Env) (a b : Event) :
  (if hasStringForm (date a) && hasStringForm (date b)
   then compareBody E a b =
          inr (Number_sub (Date_timeValue E (date a)) (Date_timeValue E (date b)))
   else exists message, compareBody E a b = inl (TypeError message)) /\
  compareByDate E a b =
    (if hasStringForm (date a) && hasStringForm (date b)
     then Number_sub (timeOf E a) (timeOf E b)
     else Num 0) /\
  (forall s : string, hasStringForm (JStr s) = true) /\
  (if isNaN (timeOf E a) || isNaN (timeOf E b)
   then SortCompare (compareByDate E) a b = 0%Z
   else exists x y, timeOf E a = Num x /\ timeOf E b = Num y /\
                    compareByDate E a b = Num (x - y)).
Proof.
  unfold compareByDate, compareBody, new_Date, andThen, SortCompare, timeOf, new_Date.
  destruct (hasStringForm (date a)), (hasStringForm (date b)); simpl;
    (split; [try reflexivity; eexists; reflexivity|]);
    (split; [reflexivity|]); (split; [reflexivity|]);
    try reflexivity.
  - destruct (Date_timeValue E (date a)) as [|x], (Date_timeValue E (date b)) as [|y];
      simpl; auto.
    exists x, y. auto.
  - destruct (Date_timeValue E (date a)); reflexivity.
Qed.

(* ====================================================================== *)
(** * Sorting *)
(* ====================================================================== *)

Lemma sgn_values (z : Z) : Z.sgn z = (-1)%Z \/ Z.sgn z = 0%Z \/ Z.sgn z = 1%Z.
Proof. destruct z; simpl; auto. Qed.



(** ** The insertion sort is a permutation *)

Section InsertionSort.
Context {A : Type}.
Variable comparefn : A -> A -> Number.

Lemma insertSorted_perm (x : A) (l : list A) :
  Permutation (x :: l) (insertSorted comparefn x l).
Proof.
  induction l as [|y l IH]; simpl.
  - apply Permutation_refl.
  - destruct (0 <? SortCompare comparefn x y)%Z.
    + apply perm_trans with (y :: x :: l); [apply perm_swap|].
      apply perm_skip. exact IH.
    + apply Permutation_refl.
Qed.

Lemma stableSort_perm (l : list A) : Permutation l (stableSort comparefn l).
Proof.
  induction l as [|x l IH]; simpl.
  - constructor.
  - apply perm_trans with (x :: stableSort comparefn l).
    + now apply perm_skip.
    + apply insertSorted_perm.
Qed.

Lemma insertSorted_In (z x : A) (l : list A) :
  In z (insertSorted comparefn x l) -> z = x \/ In z l.
Proof.
  intro H.
  apply (Permutation_in z (Permutation_sym (insertSorted_perm x l))) in H.
  destruct H; auto.
Qed.

Lemma filter_insert_other (f : A -> bool) (x : A) (l : list A) :
  f x = false -> filter f (insertSorted comparefn x l) = filter f l.
Proof.
  intro Hx. induction l as [|y l IH]; simpl.
  - now rewrite Hx.
  - destruct (0 <? SortCompare comparefn x y)%Z; simpl.
    + now rewrite IH.
    + now rewrite Hx.
Qed.

(** ** With a consistent comparator it sorts, stably *)

Variable D : A -> Prop.
Hypothesis anti : forall a b, D a -> D b ->
  sgn comparefn a b = (- sgn comparefn b a)%Z.
Hypothesis trans_eq : forall a b c, D a -> D b -> D c ->
  sgn comparefn a b = 0%Z -> sgn comparefn b c = 0%Z -> sgn comparefn a c = 0%Z.
Hypothesis trans_lt : forall a b c, D a -> D b -> D c ->
  sgn comparefn a b = (-1)%Z -> sgn comparefn b c = (-1)%Z -> sgn comparefn a c = (-1)%Z.

Lemma inOrder_sgn (a b : A) : inOrder comparefn a b <-> (0 <= sgn comparefn b a)%Z.
Proof. unfold inOrder, sgn. symmetry. apply Z.sgn_nonneg. Qed.

Lemma greater_sgn (a b : A) :
  (0 <? SortCompare comparefn a b)%Z = true <-> sgn comparefn a b = 1%Z.
Proof. unfold sgn. rewrite Z.ltb_lt. symmetry. apply Z.sgn_pos_iff. Qed.

Lemma sameRank_sgn (a b : A) : sameRank comparefn a b = true <-> sgn comparefn a b = 0%Z.
Proof. unfold sameRank, sgn. rewrite Z.eqb_eq. symmetry. apply Z.sgn_null_iff. Qed.

(** Not-greater is transitive. *)
Lemma not_greater_trans (a b c : A) :
  D a -> D b -> D c ->
  (sgn comparefn a b <= 0)%Z -> (sgn comparefn b c <= 0)%Z -> (sgn comparefn a c <= 0)%Z.
Proof.
  intros Da Db Dc Hab Hbc.
  destruct (sgn_values (SortCompare comparefn a c)) as [Hac|[Hac|Hac]];
    fold (sgn comparefn a c) in Hac; try lia.
  exfalso.
  assert (Hca : sgn comparefn c a = (-1)%Z) by (rewrite (anti c a Dc Da); lia).
  destruct (sgn_values (SortCompare comparefn a b)) as [Hab'|[Hab'|Hab']];
    fold (sgn comparefn a b) in Hab'; try lia;
  destruct (sgn_values (SortCompare comparefn b c)) as [Hbc'|[Hbc'|Hbc']];
    fold (sgn comparefn b c) in Hbc'; try lia.
  - pose proof (trans_lt a b c Da Db Dc Hab' Hbc'). lia.
  - pose proof (trans_lt c a b Dc Da Db Hca Hab') as Hcb.
    rewrite (anti c b Dc Db) in Hcb. lia.
  - pose proof (trans_lt b c a Db Dc Da Hbc' Hca) as Hba.
    rewrite (anti b a Db Da) in Hba. lia.
  - pose proof (trans_eq a b c Da Db Dc Hab' Hbc'). lia.
Qed.

Lemma insertSorted_inOrder (x : A) (l : list A) :
  D x -> Forall D l ->
  StronglySorted (inOrder comparefn) l ->
  StronglySorted (inOrder comparefn) (insertSorted comparefn x l).
Proof.
  intros Dx. induction l as [|y l IH]; intros Dl Hs; simpl.
  - constructor; constructor.
  - inversion Hs as [|? ? Hs' Hall]; subst.
    inversion Dl as [|? ? Dy Dl']; subst.
    destruct (0 <? SortCompare comparefn x y)%Z eqn:Hgt.
    + apply greater_sgn in Hgt. constructor.
      * now apply IH.
      * apply Forall_forall. intros z Hz. apply insertSorted_In in Hz.
        destruct Hz as [-> | Hz].
        -- apply inOrder_sgn. lia.
        -- rewrite Forall_forall in Hall. now apply Hall.
    + assert (Hxy : (sgn comparefn x y <= 0)%Z).
      { destruct (sgn_values (SortCompare comparefn x y)) as [H|[H|H]];
          fold (sgn comparefn x y) in H; try lia.
        apply greater_sgn in H. congruence. }
      constructor; [assumption|].
      constructor.
      * apply inOrder_sgn. rewrite (anti y x Dy Dx). lia.
      * rewrite Forall_forall in Hall, Dl' |- *. intros z Hz.
        specialize (Hall z Hz). apply inOrder_sgn in Hall.
        apply inOrder_sgn.
        assert (Hyz : (sgn comparefn y z <= 0)%Z)
          by (rewrite (anti y z Dy (Dl' z Hz)); lia).
        pose proof (not_greater_trans x y z Dx Dy (Dl' z Hz) Hxy Hyz) as Hxz.
        rewrite (anti z x (Dl' z Hz) Dx). lia.
Qed.

Lemma filter_insert_same (x0 x : A) (l : list A) :
  D x0 -> D x -> Forall D l ->
  sameRank comparefn x0 x = true ->
  filter (sameRank comparefn x0) (insertSorted comparefn x l)
  = x :: filter (sameRank comparefn x0) l.
Proof.
  intros D0 Dx Dl Hsame. induction l as [|y l IH]; simpl.
  - now rewrite Hsame.
  - inversion Dl as [|? ? Dy Dl']; subst.
    destruct (0 <? SortCompare comparefn x y)%Z eqn:Hgt; simpl.
    + apply greater_sgn in Hgt.
      destruct (sameRank comparefn x0 y) eqn:Hy.
      * exfalso. apply sameRank_sgn in Hsame, Hy.
        assert (Hx0 : sgn comparefn x x0 = 0%Z) by (rewrite (anti x x0 Dx D0); lia).
        pose proof (trans_eq x x0 y Dx D0 Dy Hx0 Hy). lia.
      * now apply IH.
    + now rewrite Hsame.
Qed.

Lemma stableSort_D (l : list A) : Forall D l -> Forall D (stableSort comparefn l).
Proof.
  intro Dl. rewrite Forall_forall in Dl |- *. intros z Hz. apply Dl.
  exact (Permutation_in z (Permutation_sym (stableSort_perm l)) Hz).
Qed.

Lemma stableSort_inOrder (l : list A) :
  Forall D l -> StronglySorted (inOrder comparefn) (stableSort comparefn l).
Proof.
  induction l as [|x l IH]; intro Dl; simpl.
  - constructor.
  - inversion Dl; subst. apply insertSorted_inOrder; auto using stableSort_D.
Qed.

Lemma stableSort_stable (x0 : A) (l : list A) :
  D x0 -> Forall D l ->
  filter (sameRank comparefn x0) (stableSort comparefn l)
  = filter (sameRank comparefn x0) l.
Proof.
  intros D0. induction l as [|x l IH]; intro Dl; simpl; [reflexivity|].
  inversion Dl; subst.
  destruct (sameRank comparefn x0 x) eqn:Hx.
  - rewrite filter_insert_same; auto using stableSort_D. now rewrite IH.
  - rewrite filter_insert_other by assumption. now apply IH.
Qed.

End InsertionSort.

(** The insertion sort is a conforming sort. *)
Lemma stableSort_conforms {A} (comparefn : A -> A -> Number) (l : list A) :
  Permutation l (stableSort comparefn l) /\
  (Consistent comparefn l -> StableSorted comparefn l (stableSort comparefn l)).
Proof.
  split; [apply stableSort_perm|].
  intros (_ & Hanti & Heq & Hlt).
  assert (Dl : Forall (fun a => In a l) l) by (apply Forall_forall; auto).
  split.
  - now apply stableSort_inOrder with (D := fun a => In a l).
  - intros x Hx. now apply stableSort_stable with (D := fun a => In a l).
Qed.



(** A remark on mixed aggregates.  When some dates parse and some do not,
    the comparator is not consistent and the order is the engine's.  This
    insertion sort, for one, never moves anything past an element that
    compares equal to everything, so such elements keep their order. *)
Lemma stableSort_keeps_equal_to_all {A} (comparefn : A -> A -> Number)
      (neutral : A -> bool) (l : list A) :
  (forall x y, neutral x = true -> SortCompare comparefn x y = 0%Z) ->
  filter neutral (stableSort comparefn l) = filter neutral l.
Proof.
  intro Hn. induction l as [|x l IH]; simpl; [reflexivity|].
  destruct (neutral x) eqn:Hx.
  - assert (Hin : insertSorted comparefn x (stableSort comparefn l)
                  = x :: stableSort comparefn l).
    { destruct (stableSort comparefn l) as [|y r]; simpl; [reflexivity|].
      now rewrite (Hn x y Hx). }
    rewrite Hin. simpl. now rewrite Hx, IH.
  - rewrite filter_insert_other by assumption. exact IH.
Qed.

(** ** The comparator of the handler *)

Lemma compareByDate_unparseable (E : Env) (a b : Event) :
  timeOf E a = NaN \/ timeOf E b = NaN -> SortCompare (compareByDate E) a b = 0%Z.
Proof.
  unfold SortCompare, compareByDate, compareBody, andThen, timeOf, new_Date.
  destruct (hasStringForm (date a)), (hasStringForm (date b)); simpl;
    try reflexivity.
  intros [H|H]; rewrite H; [reflexivity|].
  destruct (Date_timeValue E (date a)); reflexivity.
Qed.

Lemma compareByDate_parseable (E : Env) (a b : Event) :
  timeOf E a <> NaN -> timeOf E b <> NaN ->
  SortCompare (compareByDate E) a b = (timeKey E a - timeKey E b)%Z.
Proof.
  unfold SortCompare, compareByDate, compareBody, andThen, timeKey, timeOf, new_Date.
  destruct (hasStringForm (date a)), (hasStringForm (date b)); simpl;
    intros Ha Hb; try congruence.
  destruct (Date_timeValue E (date a)); [congruence|].
  destruct (Date_timeValue E (date b)); [congruence|]. reflexivity.
Qed.


(** When every date parses, the comparator subtracts time values:
    consistent. *)
Lemma parseable_consistent (E : Env) (l : list Event) :
  (forall e, In e l -> timeOf E e <> NaN) -> Consistent (compareByDate E) l.
Proof.
  intro H.
  assert (Hk : forall a b, In a l -> In b l ->
                           sgn (compareByDate E) a b = Z.sgn (timeKey E a - timeKey E b)).
  { intros a b Ha Hb. unfold sgn. rewrite compareByDate_parseable; auto. }
  unfold Consistent. repeat split.
  - intros a Ha. rewrite Hk by assumption. rewrite Z.sub_diag. reflexivity.
  - intros a b Ha Hb. rewrite !Hk by assumption.
    rewrite <- Z.sgn_opp. f_equal. lia.
  - intros a b c Ha Hb Hc. rewrite !Hk by assumption.
    rewrite !Z.sgn_null_iff. lia.
  - intros a b c Ha Hb Hc. rewrite !Hk by assumption.
    rewrite !Z.sgn_neg_iff. lia.
Qed.


(* ====================================================================== *)
(** * Facts about strings and the document tree *)
(* ====================================================================== *)

Lemma append_assoc (a b c : string) : (a ++ b) ++ c = a ++ (b ++ c).
Proof. induction a as [|x a IH]; simpl; [reflexivity | now rewrite IH]. Qed.

Lemma append_empty_r (a : string) : a ++ EmptyString = a.
Proof. induction a as [|x a IH]; simpl; [reflexivity | now rewrite IH]. Qed.

Lemma append_empty_inv (a b : string) : a ++ b = EmptyString -> a = EmptyString /\ b = EmptyString.
Proof. destruct a; simpl; intro H; [auto | discriminate]. Qed.

Lemma concatStrings_app (l1 l2 : list string) :
  concatStrings (l1 ++ l2)%list = concatStrings l1 ++ concatStrings l2.
Proof.
  induction l1 as [|x l1 IH]; simpl; [reflexivity|].
  now rewrite IH, append_assoc.
Qed.

(** Induction on a node with the hypothesis for all children. *)
Lemma Node_nested_ind (P : Node -> Prop) :
  (forall d, P (TextNode d)) ->
  (forall d, P (CommentNode d)) ->
  (forall t a cs, Forall P cs -> P (ElementNode t a cs)) ->
  forall n, P n.
Proof.
  intros Ht Hc He.
  fix IH 1. intros [d | d | t a cs].
  - apply Ht.
  - apply Hc.
  - apply He. induction cs as [|c cs IHcs]; constructor.
    + apply IH.
    + exact IHcs.
Qed.

Module DOMFacts.

(** The children kept by [removeAll], written with the list functions. *)
Lemma removeAll_children (sel : Node -> bool) (t : string) (a : list (string * string))
      (cs : list Node) :
  DOM.removeAll sel (ElementNode t a cs) =
    ElementNode t a (map (DOM.removeAll sel) (filter (fun c => negb (sel c)) cs)).
Proof.
  simpl. f_equal. induction cs as [|c cs IH]; simpl; [reflexivity|].
  destruct (sel c); simpl; [exact IH | now rewrite IH].
Qed.

Lemma elements_children (t : string) (a : list (string * string)) (cs : list Node) :
  DOM.elements (ElementNode t a cs) = ElementNode t a cs :: flat_map DOM.elements cs.
Proof.
  reflexivity.
Qed.

Lemma nonContent_removeAll (sel : Node -> bool) (n : Node) :
  DOM.nonContent (DOM.removeAll sel n) = DOM.nonContent n.
Proof. destruct n; reflexivity. Qed.

(** After the removal no element below a kept root is a script, a style
    or a noscript. *)
Lemma removeAll_clean (n : Node) :
  DOM.nonContent n = false ->
  Forall (fun x => DOM.nonContent x = false) (DOM.elements (DOM.removeAll DOM.nonContent n)).
Proof.
  induction n as [d | d | t a cs IH] using Node_nested_ind; intro Hn.
  - constructor.
  - constructor.
  - rewrite removeAll_children, elements_children. constructor.
    + rewrite <- removeAll_children. now rewrite nonContent_removeAll.
    + clear Hn. induction cs as [|c cs IHcs]; simpl; [constructor|].
      inversion IH as [|? ? Hc Hcs]; subst.
      destruct (DOM.nonContent c) eqn:Hsel; simpl.
      * now apply IHcs.
      * apply Forall_app. split; [now apply Hc | now apply IHcs].
Qed.

Lemma documentElement_removed (sel : Node -> bool) (d : Document) :
  documentElement (DOM.removeFromDocument sel d) = DOM.removeAll sel (documentElement d).
Proof.
  unfold DOM.removeFromDocument, documentElement.
  rewrite removeAll_children. reflexivity.
Qed.

Lemma ldJsonScript_nonContent (n : Node) :
  DOM.nonContent n = false -> DOM.ldJsonScript n = false.
Proof.
  unfold DOM.nonContent, DOM.ldJsonScript. intro H.
  apply orb_false_iff in H. destruct H as [H _].
  apply orb_false_iff in H. destruct H as [H _].
  now rewrite H.
Qed.

Lemma filter_none {A} (f : A -> bool) (l : list A) :
  Forall (fun x => f x = false) l -> filter f l = [].
Proof.
  induction 1 as [|x l Hx _ IH]; simpl; [reflexivity|]. now rewrite Hx.
Qed.

(** The query for ld+json scripts runs on the document from which the
    scripts are gone: it finds nothing. *)
Lemma no_ldJson_after_removal (loaded : Document) :
  DOM.querySelectorAll DOM.ldJsonScript (DOM.removeFromDocument DOM.nonContent loaded) = [].
Proof.
  unfold DOM.querySelectorAll. rewrite documentElement_removed.
  apply filter_none.
  eapply Forall_impl; [|apply removeAll_clean; reflexivity].
  intros x Hx. now apply ldJsonScript_nonContent.
Qed.

End DOMFacts.

(** The structured-data block of the report is empty for every document. *)
Lemma structuredData_empty (loaded : Document) :
  structuredData (DOM.removeFromDocument DOM.nonContent loaded) = EmptyString.
Proof.
  unfold structuredData. rewrite DOMFacts.no_ldJson_after_removal. reflexivity.
Qed.

(** C7, at a page that carries an ld+json script: the report has the
    STRUCTURED DATA label between the URL line and the PAGE CONTENT
    block, but nothing under it; the body of the script is lost. *)
Theorem structured_data_block_is_lost :
  Str.nonEmpty
    (Str.join (LF ++ LF)
       (filter Str.nonEmpty
          (map DOM.textContent (DOM.querySelectorAll DOM.ldJsonScript Demo.venuePage))))
  = true /\
  shapeContent Demo.venuePage =
    inr (pageReport "https://www.bluenote.net/newyork/" EmptyString
           (LF ++ Demo.longText ++ " " ++ LF ++ LF ++ LF)).
Proof. split; vm_compute; reflexivity. Qed.

(* ====================================================================== *)
(** * The event-biased accumulator *)
(* ====================================================================== *)

Section Accumulator.

Lemma appendElements_concat (els : list Node) :
  forall acc, appendElements els acc =
              acc ++ concatStrings (map piece (filter longEnough els)).
Proof.
  unfold appendElements.
  induction els as [|el els IH]; intro acc; simpl.
  - now rewrite append_empty_r.
  - destruct (longEnough el); rewrite IH; simpl; [|reflexivity].
    unfold piece. now rewrite !append_assoc.
Qed.

Lemma filter_qualifies (keyword : string) (els : list Node) :
  filter longEnough (filter (mentions keyword) els) = filter (qualifies keyword) els.
Proof.
  unfold qualifies. induction els as [|el els IH]; simpl; [reflexivity|].
  destruct (mentions keyword el); simpl; [|exact IH].
  destruct (longEnough el); now rewrite IH.
Qed.

(** On an element whose text and id are its own the callback of the
    filter returns, and says whether the element mentions the keyword. *)
Lemma matches_own (keyword : string) (el : Node) :
  ownTextAndId el = true -> matches keyword el = inr (mentions keyword el).
Proof.
  unfold ownTextAndId, matches, mentions, el_textContent, el_id, readProperty.
  destruct (namedControls "textContent" el); [|discriminate].
  destruct (namedControls "id" el); [|discriminate]. reflexivity.
Qed.

(** On a form with a control named "textContent" or "id" it throws. *)
Lemma matches_taken_over (keyword : string) (el : Node) :
  ownTextAndId el = false -> exists e, matches keyword el = inl e.
Proof.
  unfold ownTextAndId, matches, el_textContent, el_id, readProperty.
  destruct (namedControls "textContent" el) as [|c [|c' l]]; simpl; eauto.
  destruct (namedControls "id" el) as [|c [|c' l]]; simpl; eauto.
  discriminate.
Qed.

Lemma filterOutcome_own (keyword : string) (els : list Node) :
  Forall (fun el => ownTextAndId el = true) els ->
  filterOutcome (matches keyword) els = inr (filter (mentions keyword) els).
Proof.
  induction 1 as [|el els Hel _ IH]; simpl; [reflexivity|].
  rewrite (matches_own keyword el Hel). simpl. rewrite IH. simpl.
  destruct (mentions keyword el); reflexivity.
Qed.

Lemma filterOutcome_throws {A} (f : A -> Outcome bool) (l : list A) (x : A) :
  In x l -> (exists e, f x = inl e) -> exists e, filterOutcome f l = inl e.
Proof.
  intros Hin [e He]. induction l as [|y rest IH]; simpl; [contradiction|].
  destruct Hin as [->|Hin].
  - rewrite He. simpl. eauto.
  - destruct (f y) as [e'|keep]; simpl; [eauto|].
    destruct (IH Hin) as [e' He']. rewrite He'. simpl. eauto.
Qed.

Lemma collect_fold (d : Document) (keywords : list string) :
  Forall (fun el => ownTextAndId el = true) (DOM.elements (documentElement d)) ->
  forall acc,
    forEachKeyword d keywords acc =
    inr (acc ++ concatStrings
                  (map piece (flat_map (fun keyword =>
                                          filter (qualifies keyword)
                                                 (DOM.elements (documentElement d)))
                                       keywords))).
Proof.
  intro Hown. induction keywords as [|k ks IH]; intro acc.
  - simpl. now rewrite append_empty_r.
  - cbn [forEachKeyword flat_map].
    rewrite (filterOutcome_own k _ Hown). cbn [andThen].
    rewrite IH, appendElements_concat.
    rewrite filter_qualifies, map_app, concatStrings_app, append_assoc. reflexivity.
Qed.

Lemma snd_filter_combine {A} (f : A -> bool) (els : list A) :
  forall ns : list nat,
    List.length ns = List.length els ->
    map snd (filter (fun p => f (snd p)) (combine ns els)) = filter f els.
Proof.
  induction els as [|el els IH]; intros [|n ns] Hlen; simpl in *; try discriminate;
    try reflexivity.
  destruct (f el); simpl; rewrite IH by lia; reflexivity.
Qed.

Lemma map_flat_map {A B C} (g : B -> C) (h : A -> list B) (l : list A) :
  map g (flat_map h l) = flat_map (fun x => map g (h x)) l.
Proof.
  induction l as [|x l IH]; simpl; [reflexivity|]. now rewrite map_app, IH.
Qed.

Lemma appended_elements (d : Document) :
  map snd (appended d) =
    flat_map (fun keyword => filter (qualifies keyword) (DOM.elements (documentElement d)))
             eventKeywords.
Proof.
  unfold appended, numbered. rewrite map_flat_map.
  apply flat_map_ext. intro keyword.
  apply snd_filter_combine. now rewrite length_seq.
Qed.

(** The accumulator is the pieces of the appended elements, in order. *)
Lemma collect_appended (d : Document) :
  Forall (fun el => ownTextAndId el = true) (DOM.elements (documentElement d)) ->
  collectEventContent d = inr (concatStrings (map (fun p => piece (snd p)) (appended d))).
Proof.
  intro Hown. unfold collectEventContent. rewrite (collect_fold d _ Hown).
  rewrite <- appended_elements, map_map. reflexivity.
Qed.

(** One form whose text or id is taken over by a control is enough for
    the loop to throw, at the first keyword. *)
Lemma collect_throws (d : Document) (form : Node) :
  In form (DOM.elements (documentElement d)) ->
  ownTextAndId form = false ->
  exists e, collectEventContent d = inl e.
Proof.
  intros Hin Hform. unfold collectEventContent, eventKeywords. cbn [forEachKeyword].
  destruct (filterOutcome_throws (matches "events") _ form Hin
              (matches_taken_over "events" form Hform)) as [e He].
  rewrite He. cbn [andThen]. eauto.
Qed.

(** ** Once per keyword *)

Lemma numbered_at {A} (els : list A) :
  forall (s i : nat) (el : A),
    nth_error els i = Some el ->
    filter (fun p => Nat.eqb (fst p) (s + i)) (combine (seq s (List.length els)) els)
    = [((s + i)%nat, el)].
Proof.
  induction els as [|x els IH]; intros s i el Hnth.
  - destruct i; discriminate.
  - destruct i as [|i]; simpl in *.
    + injection Hnth as ->. rewrite Nat.add_0_r, Nat.eqb_refl. f_equal.
      apply DOMFacts.filter_none. apply Forall_forall. intros [n y] Hin.
      apply in_combine_l in Hin. apply in_seq in Hin. simpl.
      apply Nat.eqb_neq. lia.
    + replace (s + S i)%nat with (S s + i)%nat by lia.
      destruct (Nat.eqb s (S s + i)) eqn:Heq.
      * apply Nat.eqb_eq in Heq. lia.
      * now apply IH.
Qed.

Lemma filter_swap {A} (f g : A -> bool) (l : list A) :
  filter f (filter g l) = filter g (filter f l).
Proof.
  induction l as [|x l IH]; simpl; [reflexivity|].
  destruct (f x) eqn:Hf, (g x) eqn:Hg; simpl; rewrite ?Hf, ?Hg, IH; reflexivity.
Qed.

Lemma filter_flat_map {A B} (f : B -> bool) (h : A -> list B) (l : list A) :
  filter f (flat_map h l) = flat_map (fun x => filter f (h x)) l.
Proof.
  induction l as [|x l IH]; simpl; [reflexivity|]. now rewrite filter_app, IH.
Qed.

(** The element at position [i] is appended as many times as there are
    keywords it qualifies for. *)
Lemma appended_count (d : Document) (i : nat) (el : Node) :
  nth_error (DOM.elements (documentElement d)) i = Some el ->
  List.length (filter (fun p => Nat.eqb (fst p) i) (appended d)) =
  List.length (filter (fun keyword => qualifies keyword el) eventKeywords).
Proof.
  intro Hnth. unfold appended. rewrite filter_flat_map.
  rewrite (flat_map_ext _ (fun keyword => if qualifies keyword el then [(i, el)] else [])).
  - induction eventKeywords as [|k ks IH]; simpl; [reflexivity|].
    destruct (qualifies k el); simpl; now rewrite IH.
  - intro keyword. rewrite filter_swap. unfold numbered.
    pose proof (numbered_at _ 0 i el Hnth) as Hat.
    change (0 + i)%nat with i in Hat. rewrite Hat. simpl.
    destruct (qualifies keyword el); reflexivity.
Qed.

(** For an HTML element whose class is its own, the class the callback
    reads is the class attribute. *)
Lemma qualifies_iff (keyword : string) (el : Node) :
  el_className el = PString (DOM.className el) ->
  qualifies keyword el = true <->
  (Str.includes (Str.toLowerCase (DOM.textContent el)) keyword = true \/
   Str.includes (Str.toLowerCase (DOM.className el)) keyword = true \/
   Str.includes (Str.toLowerCase (DOM.id el)) keyword = true) /\
  (50 < String.length (DOM.textContent el))%nat.
Proof.
  intro Hclass. unfold qualifies, mentions, longEnough. rewrite Hclass. simpl printedLowerCased.
  rewrite !andb_true_iff, !orb_true_iff, Nat.ltb_lt. split.
  - intros [[[H|H]|H] [_ Hlen]]; auto.
  - intros [H Hlen]. split; [tauto|]. split; [|exact Hlen].
    destruct (DOM.textContent el); simpl in *; [lia | reflexivity].
Qed.

Lemma concat_pieces_nonEmpty (ps : list (nat * Node)) :
  ps <> [] -> Str.nonEmpty (concatStrings (map (fun p => piece (snd p)) ps)) = true.
Proof.
  destruct ps as [|p ps]; [congruence|]. intros _. simpl.
  destruct (Str.nonEmpty (piece (snd p) ++ _)) eqn:Hn; [reflexivity|].
  apply nonEmpty_false in Hn. apply append_empty_inv in Hn. destruct Hn as [Hp _].
  unfold piece in Hp. apply append_empty_inv in Hp. destruct Hp as [_ Hp].
  discriminate.
Qed.

Lemma flat_map_nil {A B} (h : A -> list B) (l : list A) :
  (forall x, In x l -> h x = []) -> flat_map h l = [].
Proof.
  induction l as [|x l IH]; intro H; simpl; [reflexivity|].
  rewrite (H x) by now left. apply IH. intros y Hy. apply H. now right.
Qed.

Lemma appended_nil (d : Document) :
  (forall keyword el, In keyword eventKeywords ->
                      In el (DOM.elements (documentElement d)) ->
                      qualifies keyword el = false) ->
  appended d = [].
Proof.
  intro H. unfold appended. apply flat_map_nil. intros keyword Hk.
  apply DOMFacts.filter_none. apply Forall_forall.
  intros [n el] Hin. simpl. apply H; [exact Hk|].
  unfold numbered in Hin. now apply in_combine_r in Hin.
Qed.

End Accumulator.

(** ** Plain documents *)

Section PlainDocuments.

Lemma elements_self (t : string) (a : list (string * string)) (cs : list Node) :
  In (ElementNode t a cs) (DOM.elements (ElementNode t a cs)).
Proof. rewrite DOMFacts.elements_children. now left. Qed.

(** What lies in an element of a subtree lies in the subtree. *)
Lemma elements_trans (n : Node) :
  forall x y, In x (DOM.elements n) -> In y (DOM.elements x) -> In y (DOM.elements n).
Proof.
  induction n as [d | d | t a cs IH] using Node_nested_ind; intros x y Hx Hy;
    try contradiction.
  rewrite DOMFacts.elements_children in Hx. destruct Hx as [<-|Hx]; [exact Hy|].
  rewrite DOMFacts.elements_children. right.
  apply in_flat_map in Hx. destruct Hx as [c [Hc Hx]].
  apply in_flat_map. exists c. split; [exact Hc|].
  rewrite Forall_forall in IH. exact (IH c Hc x y Hx Hy).
Qed.

(** The elements left by a removal are elements of the tree, with less
    below them. *)
Lemma elements_removeAll (sel : Node -> bool) (n : Node) :
  forall y, In y (DOM.elements (DOM.removeAll sel n)) ->
            exists x, In x (DOM.elements n) /\ y = DOM.removeAll sel x.
Proof.
  induction n as [d | d | t a cs IH] using Node_nested_ind; intros y Hy;
    try contradiction.
  rewrite DOMFacts.removeAll_children, DOMFacts.elements_children in Hy.
  destruct Hy as [<-|Hy].
  - exists (ElementNode t a cs). split; [apply elements_self|].
    now rewrite DOMFacts.removeAll_children.
  - apply in_flat_map in Hy. destruct Hy as [c' [Hc' Hy]].
    apply in_map_iff in Hc'. destruct Hc' as [c [<- Hc]].
    apply filter_In in Hc. destruct Hc as [Hc _].
    rewrite Forall_forall in IH. destruct (IH c Hc y Hy) as [x [Hx ->]].
    exists x. split; [|reflexivity].
    rewrite DOMFacts.elements_children. right.
    apply in_flat_map. exists c. auto.
Qed.

Lemma plainElement_removeAll (sel : Node -> bool) (x : Node) :
  plainElement (DOM.removeAll sel x) = plainElement x.
Proof. destruct x; reflexivity. Qed.

Lemma plainElement_unnamed (property : string) (c : Node) :
  In property propertiesRead -> plainElement c = true -> isNamed property c = false.
Proof.
  intros Hp Hc. unfold plainElement in Hc.
  apply andb_true_iff in Hc. destruct Hc as [_ Hc]. apply negb_true_iff in Hc.
  destruct (isNamed property c) eqn:Hn; [|reflexivity].
  assert (Hex : existsb (fun property => isNamed property c) propertiesRead = true)
    by (apply existsb_exists; eauto).
  congruence.
Qed.

Lemma belowForm_children (t : string) (a : list (string * string)) (cs : list Node) :
  belowForm (ElementNode t a cs) =
    flat_map (fun c => if isForm c then []
                       else ((if DOM.isElement c then [c] else []) ++ belowForm c)%list)
             cs.
Proof. reflexivity. Qed.

(** What a form owns lies below it. *)
Lemma belowForm_elements (n : Node) :
  forall x, In x (belowForm n) -> In x (DOM.elements n).
Proof.
  induction n as [d | d | t a cs IH] using Node_nested_ind; intros x Hx;
    try contradiction.
  rewrite belowForm_children in Hx. apply in_flat_map in Hx.
  destruct Hx as [c [Hc Hx]].
  rewrite DOMFacts.elements_children. right. apply in_flat_map. exists c.
  split; [exact Hc|].
  destruct (isForm c); [contradiction|].
  apply in_app_or in Hx. destruct Hx as [Hx|Hx].
  - destruct c as [d | d | t' a' cs']; simpl in Hx; try contradiction.
    destruct Hx as [<-|[]]. apply elements_self.
  - rewrite Forall_forall in IH. exact (IH c Hc x Hx).
Qed.

(** An element below which every element is plain gives its own
    properties. *)
Lemma plain_namedControls (property : string) (el : Node) :
  In property propertiesRead ->
  (forall c, In c (DOM.elements el) -> plainElement c = true) ->
  namedControls property el = [].
Proof.
  intros Hp Hall. unfold namedControls.
  destruct (isForm el); [|reflexivity].
  assert (Hnone : forall f : Node -> bool,
             filter (fun c => f c && isNamed property c)
                    (filter (fun c => negb (hasFormAttribute c)) (belowForm el)) = []).
  { intro f. apply DOMFacts.filter_none. apply Forall_forall. intros c Hc.
    apply filter_In in Hc. destruct Hc as [Hc _].
    rewrite (plainElement_unnamed property c Hp (Hall c (belowForm_elements _ _ Hc))).
    apply andb_false_r. }
  now rewrite !Hnone.
Qed.

Lemma plain_own (el : Node) :
  (forall c, In c (DOM.elements el) -> plainElement c = true) ->
  DOM.isElement el = true ->
  ownTextAndId el = true /\ el_className el = PString (DOM.className el).
Proof.
  intros Hall Hel. unfold ownTextAndId, el_className, readProperty.
  rewrite !plain_namedControls by (try exact Hall; simpl; tauto).
  split; [reflexivity|].
  destruct el as [d | d | t a cs]; try discriminate.
  pose proof (Hall _ (elements_self t a cs)) as Hplain.
  unfold plainElement in Hplain. apply andb_true_iff in Hplain.
  destruct Hplain as [Hhtml _]. now rewrite Hhtml.
Qed.

Lemma elements_are_elements (n x : Node) :
  In x (DOM.elements n) -> DOM.isElement x = true.
Proof.
  revert x. induction n as [d | d | t a cs IH] using Node_nested_ind; intros x Hx;
    try contradiction.
  rewrite DOMFacts.elements_children in Hx. destruct Hx as [<-|Hx]; [reflexivity|].
  apply in_flat_map in Hx. destruct Hx as [c [Hc Hx]].
  rewrite Forall_forall in IH. exact (IH c Hc x Hx).
Qed.

(** In a plain document, once the non-content elements are gone, every
    element gives the callback its own text, class and id. *)
Lemma plainDocument_own (loaded : Document) (el : Node) :
  plainDocument loaded = true ->
  In el (DOM.elements (documentElement (DOM.removeFromDocument DOM.nonContent loaded))) ->
  ownTextAndId el = true /\ el_className el = PString (DOM.className el).
Proof.
  intros Hplain Hel. unfold plainDocument in Hplain.
  rewrite forallb_forall in Hplain.
  apply plain_own; [|exact (elements_are_elements _ _ Hel)].
  intros c Hc.
  pose proof (elements_trans _ _ _ Hel Hc) as Hin.
  rewrite DOMFacts.documentElement_removed in Hin.
  destruct (elements_removeAll _ _ _ Hin) as [x [Hx ->]].
  rewrite plainElement_removeAll. now apply Hplain.
Qed.

End PlainDocuments.


(** A form whose text or id is taken over by a control makes the whole
    content callback throw, whatever else the page holds. *)
Lemma shaper_throws_at_taken_over_form (loaded : Document) (form : Node) :
  In form (DOM.elements (documentElement (DOM.removeFromDocument DOM.nonContent loaded))) ->
  ownTextAndId form = false ->
  exists e, shapeContent loaded = inl e.
Proof.
  intros Hin Hform. unfold shapeContent.
  destruct (collect_throws _ form Hin Hform) as [e He].
  rewrite He. simpl. eauto.
Qed.

(** C8, where the code leaves it: a page with a listing and a newsletter
    form that has a hidden field named "id".  The listing names the
    keyword "gigs" in its id and is long enough: on the page without the
    form it is the page content.  On the page with the form, the filter
    reads [el.id] on the form and gets the field, which has no
    [toLowerCase]: the callback of the filter throws at the form, for the
    first keyword already, the content callback throws, and there is no
    report. *)
Theorem control_named_id_breaks_the_shaper :
  qualifies "gigs" Samples.gigs = true /\
  shapeContent Samples.listingPage =
    inr (pageReport "https://club.test/" EmptyString
           (LF ++ Demo.longText ++ " " ++ LF ++ LF ++ LF)) /\
  el_id Samples.signup = PObject "HTMLInputElement" /\
  (exists message, matches "events" Samples.signup = inl (TypeError message)) /\
  (exists message, shapeContent Samples.signupPage = inl (TypeError message)).
Proof.
  split; [vm_compute; reflexivity|]. split; [vm_compute; reflexivity|].
  split; [vm_compute; reflexivity|].
  split; eexists; vm_compute; reflexivity.
Qed.

(** The content callback on a plain document.  On the document left after
    the removal of the non-content elements: the accumulator is the
    structured text of the appended elements, each followed by a blank
    line, keyword by keyword and in document order within a keyword; an
    element is appended once for each keyword it qualifies for; the
    callback of the filter says of an element whether its text, its class
    attribute or its id attribute contains the keyword once lower-cased,
    and the element qualifies when, besides, its text is longer than 50
    characters; so a long enough element whose class contains "calendar"
    qualifies whatever its text says; when no element qualifies for any
    keyword the page-content block is the structured text of the first
    [main] element, or of the body when there is no [main]; otherwise it
    is the accumulator. *)
Theorem event_biased_content (loaded : Document) :
  plainDocument loaded = true ->
  let d := DOM.removeFromDocument DOM.nonContent loaded in
  collectEventContent d = inr (concatStrings (map (fun p => piece (snd p)) (appended d))) /\
  (forall i el,
      nth_error (DOM.elements (documentElement d)) i = Some el ->
      List.length (filter (fun p => Nat.eqb (fst p) i) (appended d)) =
      List.length (filter (fun keyword => qualifies keyword el) eventKeywords)) /\
  (forall keyword el,
      In el (DOM.elements (documentElement d)) ->
      matches keyword el =
        inr (Str.includes (Str.toLowerCase (DOM.textContent el)) keyword
             || Str.includes (Str.toLowerCase (DOM.className el)) keyword
             || Str.includes (Str.toLowerCase (DOM.id el)) keyword) /\
      (qualifies keyword el = true <->
       (Str.includes (Str.toLowerCase (DOM.textContent el)) keyword = true \/
        Str.includes (Str.toLowerCase (DOM.className el)) keyword = true \/
        Str.includes (Str.toLowerCase (DOM.id el)) keyword = true) /\
       (50 < String.length (DOM.textContent el))%nat)) /\
  (forall el,
      In el (DOM.elements (documentElement d)) ->
      Str.includes (Str.toLowerCase (DOM.className el)) "calendar" = true ->
      (50 < String.length (DOM.textContent el))%nat ->
      In "calendar" eventKeywords /\ qualifies "calendar" el = true) /\
  ((forall keyword el, In keyword eventKeywords ->
                       In el (DOM.elements (documentElement d)) ->
                       qualifies keyword el = false) ->
   shapeContent loaded =
     match DOM.querySelector (DOM.hasTag "main") d with
     | Some main =>
         inr (pageReport (location_href d) (structuredData d) (getTextWithStructure main))
     | None =>
         match DOM.body d with
         | Some body =>
             inr (pageReport (location_href d) (structuredData d) (getTextWithStructure body))
         | None => inl (TypeError "Cannot read properties of null (reading 'childNodes')")
         end
     end) /\
  (appended d <> [] ->
   shapeContent loaded =
     inr (pageReport (location_href d) (structuredData d)
            (concatStrings (map (fun p => piece (snd p)) (appended d))))).
Proof.
  intros Hplain d.
  assert (Hown : Forall (fun el => ownTextAndId el = true)
                        (DOM.elements (documentElement d))).
  { apply Forall_forall. intros el Hel.
    exact (proj1 (plainDocument_own loaded el Hplain Hel)). }
  split; [now apply collect_appended|].
  split; [apply appended_count|].
  split.
  { intros keyword el Hel.
    destruct (plainDocument_own loaded el Hplain Hel) as [Ho Hc]. split.
    - rewrite (matches_own keyword el Ho). unfold mentions. now rewrite Hc.
    - now apply qualifies_iff. }
  split.
  { intros el Hel Hclass Hlen.
    destruct (plainDocument_own loaded el Hplain Hel) as [_ Hc]. split.
    - simpl. tauto.
    - apply (qualifies_iff "calendar" el Hc). auto. }
  split.
  - intro Hnone. unfold shapeContent. fold d.
    rewrite (collect_appended d Hown), (appended_nil d Hnone). simpl.
    unfold mainContent.
    destruct (DOM.querySelector (DOM.hasTag "main") d); [reflexivity|].
    destruct (DOM.body d); reflexivity.
  - intro Hsome. unfold shapeContent. fold d.
    rewrite (collect_appended d Hown). cbn [andThen].
    rewrite (concat_pieces_nonEmpty _ Hsome). reflexivity.
Qed.

(** The two fallbacks, run: a page with a [main] and a page without. *)
Example fallback_to_main :
  shapeContent Demo.plainPage =
    inr (pageReport "https://mywww.example.com/" EmptyString
           (LF ++ "Band X " ++ LF ++ "March 15 ")).
Proof. vm_compute. reflexivity. Qed.

Example fallback_to_body :
  shapeContent Demo.barePage =
    inr (pageReport "https://bare.test/" EmptyString (LF ++ "Band Y " ++ LF)).
Proof. vm_compute. reflexivity. Qed.

(* ====================================================================== *)
(** * The theorems at concrete requests *)
(* ====================================================================== *)

Lemma Demo_sort_conforms : SortConforms Demo.env.
Proof. intros comparefn l. apply stableSort_conforms. Qed.

(** C1 as first written fails: a request with URLs and the key [false] is
    turned away at the gate although its key is neither missing nor the
    empty string; and a body that is [null] is turned away with status
    500, not a client-error status. *)
Lemma present_key_rejected :
  POST Demo.env (Demo.request (JArr [Demo.bluenote]) (JBool false)) Demo.start =
    (inr (mkResponse (ErrorBody "OpenAI API key is required") 400), Demo.start) /\
  ~ (UrlsMissingOrEmpty (JArr [Demo.bluenote]) \/ KeyMissingOrEmpty (JBool false)) /\
  (exists msg,
      POST Demo.env (mkRequest (inr JNull)) Demo.start =
        (inr (mkResponse (ErrorBody msg) 500), Demo.start)).
Proof.
  split; [vm_compute; reflexivity|]. split.
  - unfold UrlsMissingOrEmpty, KeyMissingOrEmpty.
    intros [[H|[H|H]]|[H|H]]; discriminate H.
  - eexists. vm_compute. reflexivity.
Qed.

(** The gate at three requests: one with the key [false], which is turned
    away; one with an address and a key, and one in which a URL has no
    string form, which are not. *)
Lemma POST_validation_gate_witness :
  (exists msg,
      POST Demo.env (Demo.request (JArr [Demo.bluenote]) (JBool false)) Demo.start =
        (inr (mkResponse (ErrorBody msg) 400), Demo.start)) /\
  (exists response st',
      POST Demo.env (Demo.request (JArr [Demo.bluenote]) (JStr "k")) Demo.start =
        (inr response, st') /\
      status response <> 400%Z /\
      ((exists events, response = mkResponse (EventsBody events) 200) \/
       (exists msg, response = mkResponse (ErrorBody msg) 500))) /\
  (exists response st',
      POST Demo.env (mkRequest (inr Samples.mixedBody)) Demo.start = (inr response, st') /\
      status response <> 400%Z /\
      ((exists events, response = mkResponse (EventsBody events) 200) \/
       (exists msg, response = mkResponse (ErrorBody msg) 500))).
Proof.
  split; [|split].
  - apply (POST_validation_gate Demo.env
             (Demo.request (JArr [Demo.bluenote]) (JBool false))
             (JObj [("urls", JArr [Demo.bluenote]); ("apiKey", JBool false)])
             Demo.start).
    + reflexivity.
    + discriminate.
    + discriminate.
    + right. right. right. left. reflexivity.
  - apply (POST_validation_gate Demo.env
             (Demo.request (JArr [Demo.bluenote]) (JStr "k"))
             (JObj [("urls", JArr [Demo.bluenote]); ("apiKey", JStr "k")])
             Demo.start).
    + reflexivity.
    + discriminate.
    + discriminate.
    + intros [[H|[H|H]]|[H|[H|[H|[[q [H _]]|H]]]]]; discriminate H.
  - apply (POST_validation_gate Demo.env (mkRequest (inr Samples.mixedBody))
             Samples.mixedBody Demo.start).
    + reflexivity.
    + discriminate.
    + discriminate.
    + intros [[H|[H|H]]|[H|[H|[H|[[q [H _]]|H]]]]]; discriminate H.
Defined.

(** C2 at a request whose second URL is the value of [{"toString": null}]:
    the venue page before it has been rendered and has given two events;
    the answer is an error with status 500, without them; the address
    after it is not rendered. *)
Lemma url_without_string_form_aborts_the_batch_witness :
  List.map (@List.length Event) (fst (batch Demo.env (JStr "k") [Demo.bluenote] Demo.start))
  = [2%nat] /\
  ((exists message,
       POST Demo.env (mkRequest (inr Samples.mixedBody)) Demo.start =
         (inr (mkResponse (ErrorBody message) 500),
          snd (batch Demo.env (JStr "k") [Demo.bluenote] Demo.start))) /\
   renders (calls (snd (POST Demo.env (mkRequest (inr Samples.mixedBody)) Demo.start)))
   = (renders (calls Demo.start) ++ [Demo.bluenote])%list).
Proof.
  split; [vm_compute; reflexivity|].
  apply (url_without_string_form_aborts_the_batch Demo.env
           (mkRequest (inr Samples.mixedBody)) Samples.mixedBody (JStr "k")
           [Demo.bluenote] Samples.unprintable [Demo.example] Demo.start).
  - reflexivity.
  - reflexivity.
  - reflexivity.
  - reflexivity.
  - reflexivity.
Defined.




(** The client at the bare page, whose reply from the model is not JSON:
    it returns, with no events. *)
Lemma extractEventsWithGPT_never_throws_witness :
  (exists events st',
      extractEventsWithGPT Demo.env "content" "shot" Demo.bare (JStr "k") Demo.start
      = (inr events, st')) /\
  fst (extractEventsWithGPT Demo.env "content" "shot" Demo.bare (JStr "k") Demo.start)
  = inr [].
Proof.
  exact (extractEventsWithGPT_never_throws Demo.env "content" "shot" Demo.bare (JStr "k")
           Demo.start eq_refl).
Defined.

(** C5 as first written fails: the element has a [time], the empty
    string, and the normalized event does not carry that value but the
    sentinel; and one [null] in the array leaves no element with a
    normalized event, the map throws. *)
Lemma empty_time_replaced :
  (exists ev,
      normalizeEvent Demo.env Demo.bluenote
        (JObj [("eventName", JStr "Late Set"); ("time", JStr EmptyString)]) = inr ev /\
      field (JObj [("eventName", JStr "Late Set"); ("time", JStr EmptyString)]) "time"
      = JStr EmptyString /\
      time ev = JStr "TBA" /\
      time ev <>
        valueOrWhenAbsent
          (field (JObj [("eventName", JStr "Late Set"); ("time", JStr EmptyString)]) "time")
          (JStr "TBA")) /\
  (exists e,
      mapEvents Demo.env Demo.bluenote
        (JArr [JObj [("eventName", JStr "Late Set")]; JNull]) = inl e).
Proof.
  split.
  - eexists. split; [vm_compute; reflexivity|].
    split; [reflexivity|]. split; [reflexivity|].
    simpl. discriminate.
  - eexists. vm_compute. reflexivity.
Qed.

(** The policy on the two events the model returns for the venue page. *)
Lemma normalization_policy_witness :
  let items := items_of (field Demo.twoEvents "events") in
  JArr items = firstUsable [field Demo.twoEvents "events"; field Demo.twoEvents "data"]
                           (JArr []) /\
  (forall evs, mapEvents Demo.env Demo.bluenote (JArr items) = inr evs ->
               Forall2 (NormalizedFrom Demo.bluenote) items evs) /\
  (forall host, URL_hostname Demo.env Demo.bluenote = inr host ->
                Forall Readable items ->
                exists evs, mapEvents Demo.env Demo.bluenote (JArr items) = inr evs).
Proof.
  intros items.
  apply (normalization_policy Demo.env Demo.bluenote Demo.twoEvents items).
  reflexivity.
Defined.

(** The address https://mywww.example.com/ and an event without venue. *)
Lemma inner_www_is_cut_out_witness :
  exists ev,
    normalizeEvent Demo.env Demo.example (JObj [("name", JStr "Band X")]) = inr ev /\
    venue ev = JStr "myexample.com".
Proof.
  apply (inner_www_is_cut_out Demo.env Demo.example [("name", JStr "Band X")]).
  - reflexivity.
  - reflexivity.
Defined.

(** The class of an SVG element: the class attribute names a keyword, and
    the filter does not see it. *)
Example class_of_svg_is_not_read :
  Str.includes (Str.toLowerCase (DOM.className Samples.badge)) "events" = true /\
  matches "events" Samples.badge = inr false.
Proof. split; vm_compute; reflexivity. Qed.

(** C9 as first written fails: the model gives an event a date that is an
    object with a key "toString"; the date is truthy and is kept; no Date
    can be made of it, and in a comparison with this event the [try]
    throws and the [catch] is entered. *)
Lemma catch_is_entered :
  mapEvents Demo.env Demo.bluenote (JArr [Samples.oddDate]) = inr [Samples.oddEvent] /\
  (exists message,
      compareBody Demo.env Samples.oddEvent (Demo.tba "x") = inl (TypeError message)) /\
  compareByDate Demo.env Samples.oddEvent (Demo.tba "x") = Num 0.
Proof.
  split; [vm_compute; reflexivity|]. split; [eexists; vm_compute; reflexivity|].
  vm_compute. reflexivity.
Qed.

(** URLs that are the empty string and a number, a key that is one blank. *)
Lemma validation_ignores_url_contents_witness :
  exists response st',
    POST Demo.env (Demo.request (JArr [JStr EmptyString; JNum 5]) (JStr " ")) Demo.start
    = (inr response, st') /\
    status response <> 400%Z /\
    (exists more, calls st' = (calls Demo.start ++ Render (JStr EmptyString) :: more)%list) /\
    (exists events, response = mkResponse (EventsBody events) 200).
Proof.
  destruct (validation_ignores_url_contents Demo.env
              (Demo.request (JArr [JStr EmptyString; JNum 5]) (JStr " "))
              (JObj [("urls", JArr [JStr EmptyString; JNum 5]); ("apiKey", JStr " ")])
              (JStr EmptyString) (JStr " ") [JNum 5] Demo.start
              eq_refl eq_refl eq_refl)
    as [_ [(response & st' & HP & Hs & Hlog & Hall) _]].
  exists response, st'. split; [exact HP|]. split; [exact Hs|]. split.
  - apply Hlog. reflexivity.
  - apply Hall. reflexivity.
Defined.

(** On the page without a [main] nothing qualifies and the page content
    is the text of the body; on the listing page the listing qualifies by
    its id and is the page content; on the venue page the calendar block,
    whose text names no keyword, qualifies by its class. *)
Lemma event_biased_content_witness :
  shapeContent Demo.barePage =
    inr (pageReport "https://bare.test/" EmptyString (LF ++ "Band Y " ++ LF)) /\
  qualifies "gigs" Samples.gigs = true /\
  shapeContent Samples.listingPage =
    inr (pageReport "https://club.test/" EmptyString
           (LF ++ Demo.longText ++ " " ++ LF ++ LF ++ LF)) /\
  qualifies "calendar"
    (Demo.el "DIV" [("class", "Calendar-grid")] [Demo.el "P" [] [TextNode Demo.longText]])
  = true.
Proof.
  destruct (event_biased_content Demo.barePage eq_refl) as (_ & _ & _ & _ & Hnone & _).
  destruct (event_biased_content Samples.listingPage eq_refl)
    as (_ & _ & Hmatch & _ & _ & Hsome).
  destruct (event_biased_content Demo.venuePage eq_refl) as (_ & _ & _ & Hclass & _ & _).
  split; [|split; [|split]].
  - rewrite Hnone; [vm_compute; reflexivity|].
    intros keyword el Hk He. vm_compute in He. simpl in Hk.
    repeat (destruct Hk as [<-|Hk]); try contradiction;
      repeat (destruct He as [<-|He]); try contradiction; vm_compute; reflexivity.
  - apply (Hmatch "gigs" Samples.gigs).
    + vm_compute. tauto.
    + split; [right; right; vm_compute; reflexivity | vm_compute; lia].
  - rewrite Hsome; [vm_compute; reflexivity|]. vm_compute. discriminate.
  - apply Hclass.
    + vm_compute. tauto.
    + vm_compute. reflexivity.
    + vm_compute. lia.
Defined.

(* ====================================================================== *)
(** * Further properties of the handler *)
(* ====================================================================== *)

Lemma batch_returns (E : Env) (openai : JSValue) (urls : list JSValue) (st : State E) :
  forallb hasStringForm urls = true ->
  forEachUrl E openai urls [] st =
    (inr (concat (fst (batch E openai urls st))), snd (batch E openai urls st)).
Proof. intro H. rewrite (forEachUrl_spec E openai urls H). reflexivity. Qed.

(** The answers of [POST]. *)
Lemma POST_cases (E : Env) (request : NextRequest) (st : State E) :
  exists response st',
    POST E request st = (inr response, st') /\
    ((exists events, response = mkResponse (EventsBody events) 200) \/
     (exists msg, response = mkResponse (ErrorBody msg) 400 /\ st' = st) \/
     (exists msg, response = mkResponse (ErrorBody msg) 500)).
Proof.
  destruct (json request) as [e|body] eqn:Hj.
  - destruct (POST_unreadable_body E request st) as [msg Hm]; [left; eauto|].
    eexists. eexists. split; [exact Hm|]. right. right. eauto.
  - destruct (destructure body) as [e|[urls apiKey]] eqn:Hd.
    + eexists. exists st. split.
      * unfold POST, handle, try_catch, bind, lift. rewrite Hj, Hd. reflexivity.
      * right. right. eexists. reflexivity.
    + rewrite (POST_steps E request body urls apiKey st Hj Hd).
      destruct (noUrls urls).
      * eexists. eexists. split; [reflexivity|]. right. left. eexists. split; reflexivity.
      * destruct (negb (truthy apiKey)).
        -- eexists. eexists. split; [reflexivity|]. right. left.
           eexists. split; reflexivity.
        -- destruct (forEachUrl E apiKey (items_of urls) [] st) as [[e|allEvents] st'];
             eexists; eexists; (split; [reflexivity|]).
           ++ right. right. eexists. reflexivity.
           ++ left. eexists. reflexivity.
Qed.

Lemma noUrls_false (urls : JSValue) :
  noUrls urls = false -> exists first rest, urls = JArr (first :: rest).
Proof.
  destruct urls as [ | | b | q | s | items | fields]; intro H;
    try (unfold noUrls in H; simpl in H; rewrite ?orb_true_r in H; discriminate).
  destruct items as [|first rest]; [discriminate|]. eauto.
Qed.

(** The answer has status 200 exactly when the body is read, the request
    passes the gate and every URL has a string form. *)
Lemma POST_200_iff (E : Env) (request : NextRequest) (st : State E) :
  status (match fst (POST E request st) with
          | inr response => response
          | inl _ => mkResponse (ErrorBody EmptyString) 0
          end) = 200%Z <->
  exists body urls apiKey,
    json request = inr body /\ destructure body = inr (JArr urls, apiKey) /\
    urls <> [] /\ truthy apiKey = true /\ forallb hasStringForm urls = true.
Proof.
  destruct (json request) as [e|body] eqn:Hj.
  { split.
    - unfold POST, handle, try_catch, bind, lift. rewrite Hj. simpl. discriminate.
    - intros (body & urls & apiKey & H & _). discriminate. }
  destruct (destructure body) as [e|[urls apiKey]] eqn:Hd.
  { split.
    - unfold POST, handle, try_catch, bind, lift. rewrite Hj, Hd. simpl. discriminate.
    - intros (body' & urls & apiKey & H & Hd' & _). injection H as <-. congruence. }
  rewrite (POST_steps E request body urls apiKey st Hj Hd).
  destruct (noUrls urls) eqn:Hno.
  { split; [simpl; discriminate|].
    intros (body' & urls' & apiKey' & H & Hd' & Hne & _). injection H as <-.
    rewrite Hd in Hd'. injection Hd' as -> ->.
    destruct urls'; [congruence | discriminate]. }
  destruct (truthy apiKey) eqn:Hk; cbn [negb].
  2:{ split; [simpl; discriminate|].
      intros (body' & urls' & apiKey' & H & Hd' & _ & Hk' & _). injection H as <-.
      rewrite Hd in Hd'. injection Hd' as -> ->. congruence. }
  destruct (noUrls_false urls Hno) as (first & rest & ->). cbn [items_of].
  destruct (forallb hasStringForm (first :: rest)) eqn:Hall.
  - rewrite (forEachUrl_spec E apiKey _ Hall). split; [|reflexivity].
    intros _. exists body, (first :: rest), apiKey.
    repeat split; auto. discriminate.
  - destruct (first_without_string_form _ Hall) as (before & bad & after & Heq & Hb & Hbad).
    rewrite Heq, (forEachUrl_abort E apiKey before bad after Hb Hbad). split.
    + simpl. discriminate.
    + intros (body' & urls' & apiKey' & H & Hd' & _ & _ & Hall'). injection H as <-.
      rewrite Hd in Hd'. injection Hd' as <- <-. congruence.
Qed.

(** [POST] does not throw.  Whatever it ends with is an answer: the events
    with status 200, or an error string with status 400, the world and
    the call log being as they were, or an error string with status 500;
    and it is the events exactly when the body is read, the request passes
    the gate and every URL of it has a string form. *)
Theorem POST_never_throws
  (E : Env) (request : NextRequest) (st : State E)
  (outcome : Outcome NextResponse) (st' : State E) :
  POST E request st = (outcome, st') ->
  exists response,
    outcome = inr response /\
    ((exists events, response = mkResponse (EventsBody events) 200) \/
     (exists msg, response = mkResponse (ErrorBody msg) 400 /\ st' = st) \/
     (exists msg, response = mkResponse (ErrorBody msg) 500)) /\
    (status response = 200%Z <->
     exists body urls apiKey,
       json request = inr body /\ destructure body = inr (JArr urls, apiKey) /\
       urls <> [] /\ truthy apiKey = true /\ forallb hasStringForm urls = true).
Proof.
  intro HP. pose proof (POST_200_iff E request st) as Hiff.
  destruct (POST_cases E request st) as (response & st'' & HP' & Hkind).
  rewrite HP' in HP, Hiff. injection HP as <- <-.
  exists response. split; [reflexivity|]. split; [exact Hkind | exact Hiff].
Qed.

(** For a valid request whose URLs all have a string form, as strings
    have, the handler takes the URLs one at a time in the order of the
    list (the renderings in the call log are exactly the URLs, in order);
    each URL contributes the events extracted for it, or none when its
    rendering or extraction threw, and the loop goes on; the aggregate
    given to the sort is the concatenation of the per-URL sequences in URL
    order, so its length is the sum of their lengths. *)
Theorem POST_aggregates_per_url
  (E : Env) (request : NextRequest) (body apiKey : JSValue) (urls : list JSValue)
  (st : State E) :
  json request = inr body ->
  destructure body = inr (JArr urls, apiKey) ->
  urls <> [] ->
  truthy apiKey = true ->
  forallb hasStringForm urls = true ->
  let perUrl := fst (batch E apiKey urls st) in
  let st' := snd (batch E apiKey urls st) in
  forEachUrl E apiKey urls [] st = (inr (concat perUrl), st') /\
  POST E request st =
    (inr (mkResponse (EventsBody (sortEvents E (concat perUrl))) 200), st') /\
  List.length perUrl = List.length urls /\
  List.length (concat perUrl) = list_sum (map (@List.length Event) perUrl) /\
  renders (calls st') = (renders (calls st) ++ urls)%list.
Proof.
  intros Hj Hd Hne Hk Hall perUrl st'. subst perUrl st'.
  repeat split.
  - now apply batch_returns.
  - rewrite (POST_unfold E request body (JArr urls) apiKey st Hj Hd Hall).
    destruct urls as [|u us]; [congruence|]. simpl noUrls. cbn iota.
    rewrite Hk. reflexivity.
  - apply batch_length.
  - apply length_concat_sum.
  - now apply batch_renders.
Qed.

(** For a valid request whose URLs all have a string form, with a
    conforming sort, the events of the answer are the extracted events
    rearranged: none is lost or added, and their number is the sum of the
    numbers extracted per URL. *)
Theorem response_carries_every_event
  (E : Env) (request : NextRequest) (body apiKey : JSValue) (urls : list JSValue)
  (st : State E) :
  SortConforms E ->
  json request = inr body ->
  destructure body = inr (JArr urls, apiKey) ->
  urls <> [] ->
  truthy apiKey = true ->
  forallb hasStringForm urls = true ->
  exists events,
    fst (POST E request st) = inr (mkResponse (EventsBody events) 200) /\
    Permutation (concat (fst (batch E apiKey urls st))) events /\
    List.length events =
      list_sum (map (@List.length Event) (fst (batch E apiKey urls st))).
Proof.
  intros Hsort Hj Hd Hne Hk Hall.
  rewrite (POST_unfold E request body (JArr urls) apiKey st Hj Hd Hall).
  destruct urls as [|u us]; [congruence|]. simpl noUrls. cbn iota.
  rewrite Hk. simpl negb. cbn iota. simpl items_of.
  eexists. split; [reflexivity|].
  destruct (Hsort (compareByDate E) (concat (fst (batch E apiKey (u :: us) st))))
    as [Hperm _].
  split; [exact Hperm|].
  unfold sortEvents. rewrite <- (Permutation_length Hperm).
  apply length_concat_sum.
Qed.

Section CallDiscipline.
Variable E : Env.
Variable openai : JSValue.

Lemma urlEvents_calls_exact (url : JSValue) (st : State E) :
  hasStringForm url = true ->
  calls (snd (urlEvents E openai url st)) =
    (calls st ++ urlCalls url (renderReturns E url st))%list.
Proof.
  intro H. unfold urlEvents, urlPipeline, bind, renderReturns, urlCalls.
  pose proof (scrape_calls E url st) as Hs.
  destruct (scrapeWebsite E url st) as [[e|[content screenshot]] st1]; simpl in *.
  - exact Hs.
  - pose proof (extract_calls E content screenshot url openai st1 H) as Hx.
    destruct (extractEventsWithGPT E content screenshot url openai st1)
      as [[e|events] st2]; simpl in *; rewrite Hx, Hs, <- app_assoc; reflexivity.
Qed.

Lemma batch_calls_exact (urls : list JSValue) :
  forallb hasStringForm urls = true ->
  forall st : State E,
    calls (snd (batch E openai urls st)) = (calls st ++ batchCalls E openai urls st)%list.
Proof.
  induction urls as [|url rest IH]; intros Hall st; simpl.
  - now rewrite app_nil_r.
  - simpl in Hall. apply andb_true_iff in Hall. destruct Hall as [Hu Hr].
    pose proof (urlEvents_calls_exact url st Hu) as Hc.
    specialize (IH Hr (snd (urlEvents E openai url st))).
    destruct (urlEvents E openai url st) as [events st1]; simpl in *.
    destruct (batch E openai rest st1) as [more st2]; simpl in *.
    rewrite IH, Hc, <- app_assoc. reflexivity.
Qed.

Lemma batchCalls_renders (urls : list JSValue) :
  forall st : State E, renders (batchCalls E openai urls st) = urls.
Proof.
  induction urls as [|url rest IH]; intro st; simpl; [reflexivity|].
  unfold renders in *. rewrite flat_map_app. simpl.
  destruct (renderReturns E url st); simpl; now rewrite IH.
Qed.

Lemma batchCalls_extracts (urls : list JSValue) :
  forall st : State E,
    (List.length (extracts (batchCalls E openai urls st)) <= List.length urls)%nat.
Proof.
  induction urls as [|url rest IH]; intro st; simpl; [lia|].
  unfold extracts in *. rewrite flat_map_app, length_app.
  specialize (IH (snd (urlEvents E openai url st))).
  destruct (renderReturns E url st); simpl; lia.
Qed.

End CallDiscipline.

(** The calls of a valid request whose URLs all have a string form, in
    order: for each URL of the list its rendering, followed at once by one
    model call when the rendering returned and by nothing when it threw.
    So every URL is rendered once, and the model is called at most once
    per URL. *)
Theorem call_log_of_a_batch
  (E : Env) (request : NextRequest) (body apiKey : JSValue) (urls : list JSValue)
  (st : State E) :
  json request = inr body ->
  destructure body = inr (JArr urls, apiKey) ->
  urls <> [] ->
  truthy apiKey = true ->
  forallb hasStringForm urls = true ->
  calls (snd (POST E request st)) = (calls st ++ batchCalls E apiKey urls st)%list /\
  renders (batchCalls E apiKey urls st) = urls /\
  (List.length (extracts (batchCalls E apiKey urls st)) <= List.length urls)%nat.
Proof.
  intros Hj Hd Hne Hk Hall.
  rewrite (POST_unfold E request body (JArr urls) apiKey st Hj Hd Hall).
  destruct urls as [|u us]; [congruence|]. simpl noUrls. cbn iota.
  rewrite Hk. simpl negb. cbn iota. simpl items_of. cbn [snd].
  split; [now apply batch_calls_exact|].
  split; [apply batchCalls_renders | apply batchCalls_extracts].
Qed.

Section Reached.
Variable E : Env.
Variable openai : JSValue.

Lemma urlCalls_urls (url : JSValue) (rendered : bool) :
  renders (urlCalls url rendered) = [url] /\
  extracts (urlCalls url rendered) = (if rendered then [url] else []).
Proof. destruct rendered; split; reflexivity. Qed.

(** What the loop adds to the log are calls for URLs that have a string
    form. *)
Lemma forEachUrl_reaches (urls : list JSValue) :
  forall (allEvents : list Event) (st : State E),
  exists more,
    calls (snd (forEachUrl E openai urls allEvents st)) = (calls st ++ more)%list /\
    Forall (fun u => hasStringForm u = true) (renders more) /\
    Forall (fun u => hasStringForm u = true) (extracts more).
Proof.
  induction urls as [|url rest IH]; intros allEvents st; simpl.
  - exists []. unfold ret. simpl. rewrite app_nil_r. repeat split; constructor.
  - unfold bind. destruct (hasStringForm url) eqn:Hu.
    + rewrite (processUrl_spec E openai _ _ _ Hu).
      pose proof (urlEvents_calls_exact E openai url st Hu) as Hc.
      destruct (IH (allEvents ++ fst (urlEvents E openai url st))%list
                   (snd (urlEvents E openai url st))) as (m2 & H2 & Hr & Hx).
      destruct (urlCalls_urls url (renderReturns E url st)) as [Hru Hxu].
      exists (urlCalls url (renderReturns E url st) ++ m2)%list.
      split; [rewrite H2, Hc, <- app_assoc; reflexivity|].
      unfold renders, extracts in *. rewrite !flat_map_app. split.
      * apply Forall_app. split; [|exact Hr]. rewrite Hru. now constructor.
      * apply Forall_app. split; [|exact Hx]. rewrite Hxu.
        destruct (renderReturns E url st); [now constructor | constructor].
    + rewrite (processUrl_abort E openai _ _ _ Hu). exists []. simpl.
      rewrite app_nil_r. repeat split; constructor.
Qed.

End Reached.

(** Whatever the request, the URLs that [POST] hands to the renderer and to
    the model all have a string form: inside [POST] the client is never
    called with a URL on which putting its prompt together would throw. *)
Theorem only_urls_with_string_form_are_processed
  (E : Env) (request : NextRequest) (st : State E) :
  exists more,
    calls (snd (POST E request st)) = (calls st ++ more)%list /\
    Forall (fun u => hasStringForm u = true) (renders more) /\
    Forall (fun u => hasStringForm u = true) (extracts more).
Proof.
  assert (Hnone : exists more,
             calls st = (calls st ++ more)%list /\
             Forall (fun u => hasStringForm u = true) (renders more) /\
             Forall (fun u => hasStringForm u = true) (extracts more)).
  { exists []. rewrite app_nil_r. repeat split; constructor. }
  destruct (json request) as [e|body] eqn:Hj.
  { unfold POST, handle, try_catch, bind, lift. rewrite Hj. exact Hnone. }
  destruct (destructure body) as [e|[urls apiKey]] eqn:Hd.
  { unfold POST, handle, try_catch, bind, lift. rewrite Hj, Hd. exact Hnone. }
  rewrite (POST_steps E request body urls apiKey st Hj Hd).
  destruct (noUrls urls); [exact Hnone|].
  destruct (negb (truthy apiKey)); [exact Hnone|].
  destruct (forEachUrl_reaches E apiKey (items_of urls) [] st) as (more & Hm & Hr & Hx).
  exists more.
  destruct (forEachUrl E apiKey (items_of urls) [] st) as [[e|allEvents] st'];
    simpl in *; auto.
Qed.

(** One turn of the loop for a URL that has a string form and whose
    rendering throws: the events collected so far are kept as they are,
    the turn itself does not throw, and the model is not called. *)
Theorem render_failure_skips_the_model
  (E : Env) (openai url : JSValue) (allEvents : list Event) (st : State E) (e : Thrown) :
  hasStringForm url = true ->
  fst (scrapeWebsite E url st) = inl e ->
  fst (processUrl E openai allEvents url st) = inr allEvents /\
  calls (snd (processUrl E openai allEvents url st)) = (calls st ++ [Render url])%list.
Proof.
  intros Hurl Hf. rewrite (processUrl_spec E openai allEvents url st Hurl).
  destruct (urlEvents_render_failed E openai url st e Hf) as [Hnone Hlog].
  cbn [fst snd]. rewrite Hnone, app_nil_r. split; [reflexivity | exact Hlog].
Qed.

(* ====================================================================== *)
(** * Further properties of the extraction *)
(* ====================================================================== *)

Lemma mapOutcome_length {A B} (f : A -> Outcome B) (items : list A) :
  forall ys, mapOutcome f items = inr ys -> List.length ys = List.length items.
Proof.
  induction items as [|x rest IH]; simpl; intros ys H.
  - injection H as <-. reflexivity.
  - destruct (f x) as [e|y]; [discriminate|].
    destruct (mapOutcome f rest) as [e|more]; [discriminate|].
    injection H as <-. simpl. f_equal. now apply IH.
Qed.

Lemma mapOutcome_throws {A B} (f : A -> Outcome B) (items : list A) (x : A) :
  In x items -> (exists e, f x = inl e) -> exists e, mapOutcome f items = inl e.
Proof.
  intros Hin [e He]. induction items as [|y rest IH]; simpl; [contradiction|].
  destruct Hin as [->|Hin].
  - rewrite He. eauto.
  - destruct (f y) as [e'|b]; [eauto|].
    destruct (IH Hin) as [e' He']. rewrite He'. eauto.
Qed.

Lemma extract_result (E : Env) (content screenshot text : string)
      (url openai parsed : JSValue) (items : list JSValue) (st : State E) :
  hasStringForm url = true ->
  fst (chat_completions_create E openai content screenshot url (world st)) = inr (Some text) ->
  Str.nonEmpty text = true ->
  JSON_parse E text = inr parsed ->
  eventsOf parsed = inr (JArr items) ->
  fst (extractEventsWithGPT E content screenshot url openai st) =
    inr (match mapOutcome (normalizeEvent E url) items with
         | inr evs => evs
         | inl _ => []
         end).
Proof.
  intros Hurl Hc Ht Hp Hev.
  rewrite (extract_with_string_form E content screenshot url openai st Hurl).
  rewrite try_catch_ret_total. cbn [fst].
  unfold extractBody, bind, external.
  destruct (chat_completions_create E openai content screenshot url (world st))
    as [reply w]. simpl in Hc. subst reply. simpl.
  rewrite Ht. simpl. unfold lift. rewrite Hp. simpl. rewrite Hev. reflexivity.
Qed.

(** For a source URL that has a string form: when the model's reply holds
    an array, the client returns either one event for every element of the
    array, in order and normalized, or no event at all; and it returns
    none as soon as one element is [null]. *)
Theorem extraction_is_all_or_nothing
  (E : Env) (content screenshot text : string) (url openai parsed : JSValue)
  (items : list JSValue) (st : State E) :
  hasStringForm url = true ->
  fst (chat_completions_create E openai content screenshot url (world st)) = inr (Some text) ->
  Str.nonEmpty text = true ->
  JSON_parse E text = inr parsed ->
  eventsOf parsed = inr (JArr items) ->
  (fst (extractEventsWithGPT E content screenshot url openai st) = inr [] \/
   exists evs,
     fst (extractEventsWithGPT E content screenshot url openai st) = inr evs /\
     List.length evs = List.length items /\
     Forall2 (NormalizedFrom url) items evs) /\
  (In JNull items ->
   fst (extractEventsWithGPT E content screenshot url openai st) = inr []).
Proof.
  intros Hurl Hc Ht Hp Hev.
  rewrite (extract_result E content screenshot text url openai parsed items st
             Hurl Hc Ht Hp Hev).
  split.
  - destruct (mapOutcome (normalizeEvent E url) items) as [e|evs] eqn:Hm.
    + now left.
    + right. exists evs. split; [reflexivity|]. split.
      * now apply mapOutcome_length in Hm.
      * now apply mapOutcome_normalize with (E := E).
  - intro Hnull.
    destruct (mapOutcome_throws (normalizeEvent E url) items JNull Hnull) as [e He].
    + eexists. reflexivity.
    + rewrite He. reflexivity.
Qed.

Lemma firstUsable_truthy (candidates : list JSValue) (default : JSValue) :
  truthy default = true -> truthy (firstUsable candidates default) = true.
Proof.
  intro Hd. induction candidates as [|c rest IH]; simpl; [exact Hd|].
  destruct (truthy c) eqn:Hc; [exact Hc | exact IH].
Qed.

(** Every normalized event has a usable [eventName], [date] and [time],
    and a usable [url] whenever the source URL is one; its [venue] is the
    element's own usable venue or comes from the host of the source URL. *)
Theorem required_fields_are_populated
  (E : Env) (source element : JSValue) (ev : Event) :
  normalizeEvent E source element = inr ev ->
  truthy (eventName ev) = true /\
  truthy (date ev) = true /\
  truthy (time ev) = true /\
  (truthy source = true -> truthy (url ev) = true) /\
  ((truthy (venue ev) = true /\ venue ev = field element "venue") \/
   exists host, URL_hostname E source = inr host /\
                venue ev = JStr (Str.replace "www." EmptyString host)).
Proof.
  intro Hn.
  destruct (normalizeEvent_inv E source element ev Hn) as (Hname & Hdate & Htime & Hurl & _).
  rewrite Hname, Hdate, Htime, Hurl.
  split; [apply firstUsable_truthy; reflexivity|].
  split; [apply firstUsable_truthy; reflexivity|].
  split; [apply firstUsable_truthy; reflexivity|].
  split.
  - intro Hs. now apply firstUsable_truthy.
  - unfold normalizeEvent, andThen in Hn. unfold field.
    destruct (get_prop element "venue") as [e|v]; [discriminate|].
    unfold orElse in Hn. destruct (truthy v) eqn:Hv.
    + left. simpl in Hn.
      destruct (get_prop element "eventName"); [discriminate|].
      destruct (get_prop element "name"); [discriminate|].
      destruct (get_prop element "title"); [discriminate|].
      destruct (get_prop element "date"); [discriminate|].
      destruct (get_prop element "time"); [discriminate|].
      destruct (get_prop element "price"); [discriminate|].
      destruct (get_prop element "description"); [discriminate|].
      destruct (get_prop element "url"); [discriminate|].
      injection Hn as <-. simpl. auto.
    + right. unfold hostVenue, andThen in Hn.
      destruct (URL_hostname E source) as [e|host]; [discriminate|].
      exists host. split; [reflexivity|]. simpl in Hn.
      destruct (get_prop element "eventName"); [discriminate|].
      destruct (get_prop element "name"); [discriminate|].
      destruct (get_prop element "title"); [discriminate|].
      destruct (get_prop element "date"); [discriminate|].
      destruct (get_prop element "time"); [discriminate|].
      destruct (get_prop element "price"); [discriminate|].
      destruct (get_prop element "description"); [discriminate|].
      destruct (get_prop element "url"); [discriminate|].
      injection Hn as <-. reflexivity.
Qed.

(** An element that brings its own venue is normalized whatever the source
    URL is: the URL is not parsed, so one that does not parse does no
    harm, and the venue is kept as it is. *)
Theorem own_venue_needs_no_url (E : Env) (source element : JSValue) :
  Readable element ->
  truthy (field element "venue") = true ->
  exists ev, normalizeEvent E source element = inr ev /\
             venue ev = field element "venue".
Proof.
  intros [Hn Hu] Hv. unfold normalizeEvent, andThen.
  rewrite !get_prop_field by assumption.
  unfold orElse. rewrite Hv. eexists. split; reflexivity.
Qed.

(** An element without a usable venue, on a source URL that does not
    parse: the normalization throws, so the client returns no events. *)
Theorem missing_venue_needs_the_url (E : Env) (source element : JSValue) (e : Thrown) :
  URL_hostname E source = inl e ->
  truthy (field element "venue") = false ->
  exists e', normalizeEvent E source element = inl e'.
Proof.
  intros Hh Hv. unfold normalizeEvent, andThen, field in *.
  destruct (get_prop element "venue") as [e0|v]; [eauto|].
  unfold orElse. rewrite Hv. unfold hostVenue, andThen. rewrite Hh. eauto.
Qed.

Lemma startsWith_includes (p s : string) :
  Str.startsWith p s = true -> Str.includes s p = true.
Proof. intro H. destruct s; simpl in *; now rewrite H. Qed.

Lemma replace_is_strip (host : string) :
  Str.startsWith "www." host = true \/ Str.includes host "www." = false ->
  Str.replace "www." EmptyString host = stripLeadingWww host.
Proof.
  unfold stripLeadingWww. intros [H|H].
  - rewrite H. destruct host; simpl in *; [discriminate|]. now rewrite H.
  - rewrite (replace_without_www host H).
    destruct (Str.startsWith "www." host) eqn:Hs; [|reflexivity].
    apply startsWith_includes in Hs. congruence.
Qed.

(** For a host that begins with "www." or does not contain "www." at all,
    an element without a usable venue gets the host with the leading
    "www." taken off. *)
Theorem venue_defaults_to_stripped_host
  (E : Env) (source element : JSValue) (host : string) :
  URL_hostname E source = inr host ->
  Str.startsWith "www." host = true \/ Str.includes host "www." = false ->
  Readable element ->
  truthy (field element "venue") = false ->
  exists ev, normalizeEvent E source element = inr ev /\
             venue ev = JStr (stripLeadingWww host).
Proof.
  intros Hh Hhost [Hn Hu] Hv. unfold normalizeEvent, andThen.
  rewrite !get_prop_field by assumption.
  unfold orElse. rewrite Hv. unfold hostVenue, andThen. rewrite Hh.
  eexists. split; [reflexivity|]. simpl. f_equal. now apply replace_is_strip.
Qed.

(* ====================================================================== *)
(** * Further properties of the sort *)
(* ====================================================================== *)

Lemma filter_ext_on {A} (f g : A -> bool) (l : list A) :
  (forall x, In x l -> f x = g x) -> filter f l = filter g l.
Proof.
  induction l as [|x l IH]; intro H; simpl; [reflexivity|].
  rewrite (H x) by now left.
  rewrite IH; [reflexivity|]. intros y Hy. apply H. now right.
Qed.

Lemma sameRank_sameTime (E : Env) (x y : Event) :
  timeOf E x <> NaN -> timeOf E y <> NaN ->
  sameRank (compareByDate E) x y = sameTime E x y.
Proof.
  intros Hx Hy. unfold sameRank, sameTime.
  rewrite compareByDate_parseable by assumption.
  destruct (Z.eqb_spec (timeKey E x - timeKey E y) 0);
    destruct (Z.eqb_spec (timeKey E x) (timeKey E y)); try reflexivity; lia.
Qed.

(** When every date parses, events with the same date come out in the
    order they were inserted in. *)
Theorem equal_dates_keep_insertion_order
  (E : Env) (allEvents : list Event) (x : Event) :
  SortConforms E ->
  (forall e, In e allEvents -> timeOf E e <> NaN) ->
  In x allEvents ->
  filter (sameTime E x) (sortEvents E allEvents) = filter (sameTime E x) allEvents.
Proof.
  intros Hsort Hall Hx. unfold sortEvents.
  destruct (Hsort (compareByDate E) allEvents) as [Hperm Hstable].
  destruct (Hstable (parseable_consistent E allEvents Hall)) as [_ Hkeep].
  rewrite <- (filter_ext_on (sameRank (compareByDate E) x) (sameTime E x) allEvents).
  - rewrite <- (Hkeep x Hx). symmetry. apply filter_ext_on.
    intros y Hy. apply sameRank_sameTime; apply Hall; [exact Hx|].
    exact (Permutation_in y (Permutation_sym Hperm) Hy).
  - intros y Hy. apply sameRank_sameTime; now apply Hall.
Qed.

(** Two events with different dates that parse and one with a date that
    does not: the comparator is not consistent on them (each of the two
    compares equal to the third, and they do not compare equal to each
    other), so the order of such an aggregate is left to the engine. *)
Theorem mixed_dates_are_not_consistent
  (E : Env) (a b u : Event) (x y : Z) :
  timeOf E a = Num x ->
  timeOf E b = Num y ->
  x <> y ->
  timeOf E u = NaN ->
  ~ Consistent (compareByDate E) [a; u; b].
Proof.
  intros Ha Hb Hxy Hu (_ & _ & Heq & _).
  assert (Hau : sgn (compareByDate E) a u = 0%Z).
  { unfold sgn. rewrite compareByDate_unparseable; auto. }
  assert (Hub : sgn (compareByDate E) u b = 0%Z).
  { unfold sgn. rewrite compareByDate_unparseable; auto. }
  assert (Hab : sgn (compareByDate E) a b = 0%Z).
  { apply (Heq a u b); simpl; auto. }
  unfold sgn in Hab. rewrite compareByDate_parseable in Hab by congruence.
  unfold timeKey in Hab. rewrite Ha, Hb in Hab.
  apply Z.sgn_null_iff in Hab. lia.
Qed.

(* ====================================================================== *)
(** * Further properties of the content shaping *)
(* ====================================================================== *)

Lemma addChild_acc (text : string) (child : Node) (inner : string) :
  addChild text child inner = text ++ addChild EmptyString child inner.
Proof.
  unfold addChild. destruct child as [d | d | tag attrs cs]; cbv beta iota zeta.
  - destruct (Str.nonEmpty (Str.trim d)); [reflexivity | now rewrite append_empty_r].
  - now rewrite append_empty_r.
  - destruct (Str.mem (Str.toLowerCase tag) blockElements);
      now rewrite ?append_assoc.
Qed.

(** The text of an element is the texts of its children, one after the
    other. *)
Lemma getTextWithStructure_children (t : string) (a : list (string * string))
      (cs : list Node) :
  getTextWithStructure (ElementNode t a cs) = concatStrings (map childText cs).
Proof.
  simpl.
  assert (H : forall l text,
             (fix loop (l : list Node) (text : string) : string :=
                match l with
                | [] => text
                | child :: rest =>
                    loop rest (addChild text child (getTextWithStructure child))
                end) l text = text ++ concatStrings (map childText l)).
  { induction l as [|c l IH]; intro text; simpl.
    - now rewrite append_empty_r.
    - rewrite IH, addChild_acc, append_assoc. reflexivity. }
  rewrite H. reflexivity.
Qed.


Lemma silent_childText (c : Node) : silent c = true -> childText c = EmptyString.
Proof.
  destruct c as [d | d | tag attrs cs]; simpl; intro H; try discriminate.
  - unfold childText, addChild. apply negb_true_iff in H. now rewrite H.
  - reflexivity.
Qed.

(** Comments and text that is only white space leave no trace in the
    structured text: taking them out of the children changes nothing. *)
Theorem blank_children_leave_no_trace
  (t : string) (a : list (string * string)) (cs : list Node) :
  getTextWithStructure (ElementNode t a cs) =
    getTextWithStructure (ElementNode t a (filter (fun c => negb (silent c)) cs)).
Proof.
  rewrite !getTextWithStructure_children.
  induction cs as [|c cs IH]; simpl; [reflexivity|].
  destruct (silent c) eqn:Hs; simpl.
  - rewrite (silent_childText c Hs). exact IH.
  - now rewrite IH.
Qed.

(** ** Removing twice is removing once *)

Lemma filter_map_stable {A} (p : A -> bool) (f : A -> A) (l : list A) :
  (forall x, p (f x) = p x) -> filter p (map f l) = map f (filter p l).
Proof.
  intro H. induction l as [|x l IH]; simpl; [reflexivity|].
  rewrite H. destruct (p x); simpl; now rewrite IH.
Qed.

Lemma filter_idem {A} (p : A -> bool) (l : list A) : filter p (filter p l) = filter p l.
Proof.
  induction l as [|x l IH]; simpl; [reflexivity|].
  destruct (p x) eqn:Hx; simpl; rewrite ?Hx, IH; reflexivity.
Qed.

Lemma removeAll_idem (n : Node) :
  DOM.removeAll DOM.nonContent (DOM.removeAll DOM.nonContent n)
  = DOM.removeAll DOM.nonContent n.
Proof.
  induction n as [d | d | t a cs IH] using Node_nested_ind; try reflexivity.
  rewrite !DOMFacts.removeAll_children. f_equal.
  rewrite filter_map_stable
    by (intro x; now rewrite DOMFacts.nonContent_removeAll).
  rewrite filter_idem, map_map.
  apply map_ext_in. intros c Hc.
  apply filter_In in Hc. destruct Hc as [Hc _].
  rewrite Forall_forall in IH. now apply IH.
Qed.

Lemma removeFromDocument_idem (d : Document) :
  DOM.removeFromDocument DOM.nonContent (DOM.removeFromDocument DOM.nonContent d)
  = DOM.removeFromDocument DOM.nonContent d.
Proof.
  pose proof (removeAll_idem (documentElement d)) as H.
  unfold DOM.removeFromDocument at 1.
  rewrite DOMFacts.documentElement_removed, H.
  unfold DOM.removeFromDocument, documentElement.
  rewrite DOMFacts.removeAll_children. reflexivity.
Qed.

(** The report of a page is the report of the page with its script, style
    and noscript elements already taken out: nothing in the report comes
    from those elements. *)
Theorem report_ignores_non_content (loaded : Document) :
  shapeContent (DOM.removeFromDocument DOM.nonContent loaded) = shapeContent loaded.
Proof.
  unfold shapeContent. rewrite removeFromDocument_idem. reflexivity.
Qed.

(** ** A keyword in the text of an element is in the text of its ancestors *)









(* ====================================================================== *)
(** * The page: lists and URLs *)
(* ====================================================================== *)

Section PageLists.
Import Page.

Lemma find_map_same_id (f : URLList -> URLList) (id0 : string) (l : list URLList) :
  (forall x, id (f x) = id x) ->
  find (fun list => String.eqb (id list) id0) (map f l)
  = option_map f (find (fun list => String.eqb (id list) id0) l).
Proof.
  intro Hf. induction l as [|x l IH]; simpl; [reflexivity|].
  rewrite Hf. destruct (String.eqb (id x) id0); [reflexivity | exact IH].
Qed.

Lemma find_fresh (id0 : string) (l : list URLList) :
  ~ In id0 (map id l) -> find (fun list => String.eqb (id list) id0) l = None.
Proof.
  induction l as [|x l IH]; simpl; intro H; [reflexivity|].
  destruct (String.eqb_spec (id x) id0) as [Heq|Hne].
  - exfalso. apply H. now left.
  - apply IH. intro Hin. apply H. now right.
Qed.

Lemma find_app (p : URLList -> bool) (l1 l2 : list URLList) :
  find p (l1 ++ l2)%list = match find p l1 with Some x => Some x | None => find p l2 end.
Proof.
  induction l1 as [|x l1 IH]; simpl; [reflexivity|].
  destruct (p x); [reflexivity | exact IH].
Qed.

Lemma filter_fresh (id0 : string) (l : list URLList) :
  ~ In id0 (map id l) -> filter (fun list => negb (String.eqb (id list) id0)) l = l.
Proof.
  induction l as [|x l IH]; simpl; intro H; [reflexivity|].
  destruct (String.eqb_spec (id x) id0) as [Heq|Hne]; simpl.
  - exfalso. apply H. now left.
  - f_equal. apply IH. intro Hin. apply H. now right.
Qed.

Lemma find_filter_other (id0 id1 : string) (l : list URLList) :
  id1 <> id0 ->
  find (fun list => String.eqb (id list) id1)
       (filter (fun list => negb (String.eqb (id list) id0)) l)
  = find (fun list => String.eqb (id list) id1) l.
Proof.
  intro Hne. induction l as [|x l IH]; simpl; [reflexivity|].
  destruct (String.eqb_spec (id x) id0) as [H0|H0]; simpl.
  - destruct (String.eqb_spec (id x) id1) as [H1|H1]; [congruence | exact IH].
  - destruct (String.eqb (id x) id1); [reflexivity | exact IH].
Qed.

Lemma find_filter_same (id0 : string) (l : list URLList) :
  find (fun list => String.eqb (id list) id0)
       (filter (fun list => negb (String.eqb (id list) id0)) l) = None.
Proof.
  induction l as [|x l IH]; simpl; [reflexivity|].
  destruct (String.eqb (id x) id0) eqn:H; simpl; [exact IH|].
  now rewrite H.
Qed.

Lemma map_id_same (f : URLList -> URLList) (l : list URLList) :
  (forall x, id (f x) = id x) -> map id (map f l) = map id l.
Proof.
  intro Hf. rewrite map_map. apply map_ext. exact Hf.
Qed.

Lemma ids_after_filter_NoDup (p : URLList -> bool) (l : list URLList) :
  NoDup (map id l) -> NoDup (map id (filter p l)).
Proof.
  induction l as [|x l IH]; simpl; intro H; [constructor|].
  inversion H as [|? ? Hx Hl]; subst.
  destruct (p x); simpl; [|now apply IH].
  constructor; [|now apply IH].
  intro Hin. apply Hx. apply in_map_iff in Hin. destruct Hin as [y [Hy Hin]].
  apply filter_In in Hin. destruct Hin as [Hin _].
  apply in_map_iff. eauto.
Qed.

Lemma lists_createNewList (uuid : string) (now : Z) (s : State) :
  blank (newListName s) = false ->
  createNewList uuid now s =
    setSelectedListId uuid
      (setNewListName EmptyString
         (setLists (lists s ++ [mkURLList uuid (newListName s) [] now])%list s)).
Proof. intro H. unfold createNewList. rewrite H. reflexivity. Qed.

Lemma addUrlToList_lists (s : State) :
  blank (newUrl s) = false ->
  Str.nonEmpty (selectedListId s) = true ->
  lists (addUrlToList s) =
    map (fun list =>
           if String.eqb (id list) (selectedListId s)
           then mkURLList (id list) (name list) (urls list ++ [newUrl s])%list
                          (createdAt list)
           else list)
        (lists s) /\
  selectedListId (addUrlToList s) = selectedListId s.
Proof.
  intros Hb Hs. unfold addUrlToList. rewrite Hb, Hs. simpl. auto.
Qed.

End PageLists.

(** A list created under an id that no list has yet is the selected list
    afterwards: it has the name as typed, untrimmed, and no URLs, and the
    name field is cleared; a name that is blank creates nothing. *)
Theorem created_list_is_selected (uuid : string) (now : Z) (s : Page.State) :
  ~ In uuid (Page.ids s) ->
  if Page.blank (Page.newListName s)
  then Page.createNewList uuid now s = s
  else
    Page.selectedList (Page.createNewList uuid now s)
    = Some (Page.mkURLList uuid (Page.newListName s) [] now) /\
    Page.lists (Page.createNewList uuid now s)
    = (Page.lists s ++ [Page.mkURLList uuid (Page.newListName s) [] now])%list /\
    Page.newListName (Page.createNewList uuid now s) = EmptyString.
Proof.
  intro Hfresh. destruct (Page.blank (Page.newListName s)) eqn:Hb.
  - unfold Page.createNewList. now rewrite Hb.
  - rewrite (lists_createNewList uuid now s Hb).
    unfold Page.selectedList. simpl.
    rewrite find_app, (find_fresh uuid (Page.lists s) Hfresh). simpl.
    rewrite String.eqb_refl. auto.
Qed.

(** The ids of the lists stay distinct: creating a list under a fresh id,
    deleting a list, adding a URL and removing a URL all keep them so. *)
Theorem ids_stay_distinct (uuid url id0 : string) (now : Z) (s : Page.State) :
  NoDup (Page.ids s) ->
  ~ In uuid (Page.ids s) ->
  NoDup (Page.ids (Page.createNewList uuid now s)) /\
  NoDup (Page.ids (Page.deleteList id0 s)) /\
  NoDup (Page.ids (Page.addUrlToList s)) /\
  NoDup (Page.ids (Page.removeUrlFromList url s)).
Proof.
  intros Hnd Hfresh. unfold Page.ids in *. repeat split.
  - unfold Page.createNewList. destruct (Page.blank (Page.newListName s)); [exact Hnd|].
    simpl. rewrite map_app. simpl.
    apply NoDup_app; [exact Hnd | repeat constructor; intros [] |].
    intros x Hx [<-|[]]. contradiction.
  - unfold Page.deleteList.
    destruct (String.eqb (Page.selectedListId s) id0); simpl;
      now apply ids_after_filter_NoDup.
  - unfold Page.addUrlToList.
    destruct (Page.blank (Page.newUrl s) || negb (Str.nonEmpty (Page.selectedListId s)));
      [exact Hnd|].
    simpl. rewrite map_id_same; [exact Hnd|].
    intro x. destruct (String.eqb (Page.id x) (Page.selectedListId s)); reflexivity.
  - unfold Page.removeUrlFromList. simpl. rewrite map_id_same; [exact Hnd|].
    intro x. destruct (String.eqb (Page.id x) (Page.selectedListId s)); reflexivity.
Qed.

(** After [deleteList] no list answers to the deleted id, every other list
    is found as before, and the selection is dropped exactly when it was
    the deleted list. *)
Theorem deleted_list_is_gone (id0 : string) (s : Page.State) :
  Page.urlsOf id0 (Page.deleteList id0 s) = None /\
  (forall id1, id1 <> id0 ->
               Page.urlsOf id1 (Page.deleteList id0 s) = Page.urlsOf id1 s) /\
  Page.selectedListId (Page.deleteList id0 s)
  = (if String.eqb (Page.selectedListId s) id0 then EmptyString
     else Page.selectedListId s).
Proof.
  unfold Page.urlsOf, Page.deleteList. repeat split.
  - destruct (String.eqb (Page.selectedListId s) id0); simpl;
      now rewrite find_filter_same.
  - intros id1 Hne.
    destruct (String.eqb (Page.selectedListId s) id0); simpl;
      now rewrite find_filter_other.
  - destruct (String.eqb (Page.selectedListId s) id0); reflexivity.
Qed.

(** Creating a list under a fresh id and deleting it again gives the
    lists back as they were; what stays changed is the cleared name field
    and the selection. *)
Theorem create_then_delete (uuid : string) (now : Z) (s : Page.State) :
  Page.blank (Page.newListName s) = false ->
  ~ In uuid (Page.ids s) ->
  Page.deleteList uuid (Page.createNewList uuid now s)
  = Page.setSelectedListId EmptyString (Page.setNewListName EmptyString s).
Proof.
  intros Hb Hfresh. rewrite (lists_createNewList uuid now s Hb).
  unfold Page.deleteList. simpl. rewrite String.eqb_refl.
  unfold Page.setSelectedListId, Page.setNewListName, Page.setLists. simpl.
  rewrite filter_app, (filter_fresh uuid (Page.lists s) Hfresh). simpl.
  rewrite String.eqb_refl. simpl. rewrite app_nil_r. reflexivity.
Qed.

(** [addUrlToList] puts the URL as typed at the end of the URLs of the
    selected list and leaves the URLs of every other list alone; the ids
    of the lists do not change. *)
Theorem added_url_goes_last (s : Page.State) :
  Page.blank (Page.newUrl s) = false ->
  Str.nonEmpty (Page.selectedListId s) = true ->
  Page.urlsOf (Page.selectedListId s) (Page.addUrlToList s)
  = option_map (fun us => us ++ [Page.newUrl s])%list
               (Page.urlsOf (Page.selectedListId s) s) /\
  (forall id1, id1 <> Page.selectedListId s ->
               Page.urlsOf id1 (Page.addUrlToList s) = Page.urlsOf id1 s) /\
  Page.ids (Page.addUrlToList s) = Page.ids s.
Proof.
  intros Hb Hs. destruct (addUrlToList_lists s Hb Hs) as [Hl _].
  unfold Page.urlsOf, Page.ids. rewrite Hl. repeat split.
  - rewrite find_map_same_id
      by (intro x; destruct (String.eqb (Page.id x) (Page.selectedListId s)); reflexivity).
    destruct (find _ (Page.lists s)) as [x|] eqn:Hf; simpl; [|reflexivity].
    apply find_some in Hf. destruct Hf as [_ Hx]. now rewrite Hx.
  - intros id1 Hne.
    rewrite find_map_same_id
      by (intro x; destruct (String.eqb (Page.id x) (Page.selectedListId s)); reflexivity).
    destruct (find _ (Page.lists s)) as [x|] eqn:Hf; simpl; [|reflexivity].
    apply find_some in Hf. destruct Hf as [_ Hx]. apply String.eqb_eq in Hx.
    destruct (String.eqb_spec (Page.id x) (Page.selectedListId s)); [congruence|reflexivity].
  - apply map_id_same.
    intro x. destruct (String.eqb (Page.id x) (Page.selectedListId s)); reflexivity.
Qed.

(** [removeUrlFromList] takes every copy of the URL out of the selected
    list, not only the one whose button was pressed; the other URLs keep
    their order, and the other lists are left alone. *)
Theorem removed_url_loses_every_copy (url : string) (s : Page.State) :
  Page.urlsOf (Page.selectedListId s) (Page.removeUrlFromList url s)
  = option_map (filter (fun u => negb (String.eqb u url)))
               (Page.urlsOf (Page.selectedListId s) s) /\
  (forall us, Page.urlsOf (Page.selectedListId s) (Page.removeUrlFromList url s) = Some us ->
              ~ In url us) /\
  (forall id1, id1 <> Page.selectedListId s ->
               Page.urlsOf id1 (Page.removeUrlFromList url s) = Page.urlsOf id1 s).
Proof.
  assert (Hsame : forall x,
             Page.id (if String.eqb (Page.id x) (Page.selectedListId s)
                      then Page.mkURLList (Page.id x) (Page.name x)
                             (filter (fun u => negb (String.eqb u url)) (Page.urls x))
                             (Page.createdAt x)
                      else x) = Page.id x).
  { intro x. destruct (String.eqb (Page.id x) (Page.selectedListId s)); reflexivity. }
  assert (H1 : Page.urlsOf (Page.selectedListId s) (Page.removeUrlFromList url s)
               = option_map (filter (fun u => negb (String.eqb u url)))
                            (Page.urlsOf (Page.selectedListId s) s)).
  { unfold Page.urlsOf, Page.removeUrlFromList. simpl.
    rewrite find_map_same_id by exact Hsame.
    destruct (find _ (Page.lists s)) as [x|] eqn:Hf; simpl; [|reflexivity].
    apply find_some in Hf. destruct Hf as [_ Hx]. now rewrite Hx. }
  split; [exact H1|]. split.
  - intros us Hus. rewrite H1 in Hus.
    destruct (Page.urlsOf (Page.selectedListId s) s) as [old|]; [|discriminate].
    simpl in Hus. injection Hus as <-. intro Hin.
    apply filter_In in Hin. destruct Hin as [_ Hneq].
    rewrite String.eqb_refl in Hneq. discriminate.
  - intros id1 Hne. unfold Page.urlsOf, Page.removeUrlFromList. simpl.
    rewrite find_map_same_id by exact Hsame.
    destruct (find _ (Page.lists s)) as [x|] eqn:Hf; simpl; [|reflexivity].
    apply find_some in Hf. destruct Hf as [_ Hx]. apply String.eqb_eq in Hx.
    destruct (String.eqb_spec (Page.id x) (Page.selectedListId s)); [congruence|reflexivity].
Qed.

Lemma filter_absent (url : string) (us : list string) :
  ~ In url us -> filter (fun u => negb (String.eqb u url)) us = us.
Proof.
  induction us as [|u us IH]; simpl; intro H; [reflexivity|].
  destruct (String.eqb_spec u url) as [Heq|Hne]; simpl.
  - exfalso. apply H. now left.
  - f_equal. apply IH. intro Hin. apply H. now right.
Qed.

(** Adding a URL and removing it again: the selected list ends with its
    old URLs less every earlier copy of that URL.  So the round trip gives
    the list back only when the URL was not in it before. *)
Theorem add_then_remove (s : Page.State) (us : list string) :
  Page.blank (Page.newUrl s) = false ->
  Str.nonEmpty (Page.selectedListId s) = true ->
  Page.urlsOf (Page.selectedListId s) s = Some us ->
  Page.urlsOf (Page.selectedListId s)
              (Page.removeUrlFromList (Page.newUrl s) (Page.addUrlToList s))
  = Some (filter (fun u => negb (String.eqb u (Page.newUrl s))) us) /\
  (~ In (Page.newUrl s) us ->
   Page.urlsOf (Page.selectedListId s)
               (Page.removeUrlFromList (Page.newUrl s) (Page.addUrlToList s))
   = Some us).
Proof.
  intros Hb Hs Hus.
  destruct (addUrlToList_lists s Hb Hs) as [Hl Hsel].
  assert (Hadd : Page.urlsOf (Page.selectedListId s) (Page.addUrlToList s)
                 = Some (us ++ [Page.newUrl s])%list).
  { unfold Page.urlsOf in *. rewrite Hl.
    rewrite find_map_same_id
      by (intro x; destruct (String.eqb (Page.id x) (Page.selectedListId s)); reflexivity).
    destruct (find _ (Page.lists s)) as [x|] eqn:Hf; simpl in *; [|discriminate].
    apply find_some in Hf. destruct Hf as [_ Hx]. rewrite Hx. simpl. congruence. }
  assert (Hrem : Page.urlsOf (Page.selectedListId s)
                   (Page.removeUrlFromList (Page.newUrl s) (Page.addUrlToList s))
                 = Some (filter (fun u => negb (String.eqb u (Page.newUrl s))) us)).
  { unfold Page.urlsOf, Page.removeUrlFromList. simpl. rewrite Hsel.
    rewrite find_map_same_id
      by (intro x; destruct (String.eqb (Page.id x) (Page.selectedListId s)); reflexivity).
    unfold Page.urlsOf in Hadd.
    destruct (find _ (Page.lists (Page.addUrlToList s))) as [x|] eqn:Hf;
      simpl in *; [|discriminate].
    apply find_some in Hf. destruct Hf as [_ Hx]. rewrite Hx. simpl.
    injection Hadd as ->. rewrite filter_app. simpl.
    rewrite String.eqb_refl. simpl. now rewrite app_nil_r. }
  split; [exact Hrem|].
  intro Hnot. rewrite Hrem. now rewrite filter_absent.
Qed.

(* ====================================================================== *)
(** * The page: asking for the events *)
(* ====================================================================== *)

(** The guards of [scrapeEvents]: with no list selected, no key, a
    selection that names no list, or a selected list without URLs, nothing
    is sent, an error is shown, and the events, the loading flag and the
    lists stay as they are. *)
Theorem scrape_guards_send_nothing (B : Page.Browser) (s : Page.State) (net : Page.Net B) :
  Page.selectedListId s = EmptyString \/ Page.apiKey s = EmptyString \/
  Page.urlsOf (Page.selectedListId s) s = None \/
  Page.urlsOf (Page.selectedListId s) s = Some [] ->
  snd (Page.scrapeEvents B s net) = net /\
  (exists message, Page.error (fst (Page.scrapeEvents B s net)) = Some message) /\
  Page.events (fst (Page.scrapeEvents B s net)) = Page.events s /\
  Page.loading (fst (Page.scrapeEvents B s net)) = Page.loading s /\
  Page.lists (fst (Page.scrapeEvents B s net)) = Page.lists s.
Proof.
  intro H. unfold Page.scrapeEvents, Page.urlsOf, Page.selectedList in *.
  destruct (Str.nonEmpty (Page.selectedListId s)) eqn:Hs; simpl;
    [|repeat split; eauto].
  destruct (Str.nonEmpty (Page.apiKey s)) eqn:Hk; simpl;
    [|repeat split; eauto].
  destruct H as [H|[H|[H|H]]].
  - rewrite H in Hs. discriminate.
  - rewrite H in Hk. discriminate.
  - destruct (find _ (Page.lists s)); [discriminate|]. simpl. repeat split; eauto.
  - destruct (find _ (Page.lists s)) as [x|]; [|discriminate].
    simpl in H. injection H as ->. simpl. repeat split; eauto.
Qed.

(** Past the guards, whatever [fetch] does: the page is no longer loading
    at the end, and it shows either the events of the answer and no
    error, or an error and no events. *)
Theorem scrape_always_settles
  (B : Page.Browser) (s : Page.State) (net : Page.Net B) (selected : Page.URLList) :
  Page.selectedListId s <> EmptyString ->
  Page.apiKey s <> EmptyString ->
  Page.selectedList s = Some selected ->
  Page.urls selected <> [] ->
  let s' := fst (Page.scrapeEvents B s net) in
  Page.loading s' = false /\
  Page.lists s' = Page.lists s /\
  ((Page.error s' = None /\
    Page.receive B (fst (Page.fetch B (Page.requestBody selected (Page.apiKey s)) net))
    = inr (Page.events s')) \/
   (exists message, Page.error s' = Some message) /\ Page.events s' = JArr []).
Proof.
  intros Hs Hk Hsel Hurls s'. subst s'. unfold Page.scrapeEvents.
  destruct (Str.nonEmpty (Page.selectedListId s)) eqn:Hs'.
  2:{ apply nonEmpty_false in Hs'. contradiction. }
  destruct (Str.nonEmpty (Page.apiKey s)) eqn:Hk'.
  2:{ apply nonEmpty_false in Hk'. contradiction. }
  simpl. rewrite Hsel.
  assert (Hlen : (List.length (Page.urls selected) =? 0)%nat = false)
    by (destruct (Page.urls selected); [congruence | reflexivity]).
  rewrite Hlen.
  destruct (Page.fetch B (Page.requestBody selected (Page.apiKey s)) net)
    as [answer net'].
  simpl. destruct (Page.receive B answer) as [err|evs]; simpl.
  - split; [reflexivity|]. split; [reflexivity|]. right. eauto.
  - split; [reflexivity|]. split; [reflexivity|]. left. auto.
Qed.

Lemma decimal_400 : Page.decimal 400 = "400".
Proof. vm_compute. reflexivity. Qed.

Lemma decimal_500 : Page.decimal 500 = "500".
Proof. vm_compute. reflexivity. Qed.

Lemma receive_events (B : Page.Browser) (evs : list Event) :
  Page.receive B
    (Page.FetchResponse 200 (inr (responseJSON (mkResponse (EventsBody evs) 200))))
  = inr (JArr (map eventJSON evs)).
Proof. reflexivity. Qed.

Lemma receive_error (B : Page.Browser) (message : string) (code : Z) :
  Page.ok code = false ->
  Page.receive B
    (Page.FetchResponse code (inr (responseJSON (mkResponse (ErrorBody message) code))))
  = inl (ThrownError ("HTTP error! status: " ++ Page.decimal code)).
Proof. intro H. unfold Page.receive. now rewrite H. Qed.

(** Whatever body is sent to the route, the page gets either the events
    or one of the two messages made from the status.  The error string
    the route puts in its answer is never the one shown: the status is
    looked at first, and the route sends its errors with status 400 or
    500. *)
Theorem route_error_text_is_never_shown
  (E : Env) (toString : JSValue -> string) (body : JSValue) (st : State E) :
  let answer := fst (Page.fetch (served E toString) body st) in
  (exists evs, Page.receive (served E toString) answer = inr (JArr (map eventJSON evs))) \/
  Page.receive (served E toString) answer = inl (ThrownError "HTTP error! status: 400") \/
  Page.receive (served E toString) answer = inl (ThrownError "HTTP error! status: 500").
Proof.
  cbn zeta. unfold served. cbn [Page.fetch].
  destruct (POST_cases E (mkRequest (inr body)) st)
    as (response & st' & HP & [[evs ->] | [[msg [-> _]] | [msg ->]]]);
    rewrite HP; cbn [fst status].
  - left. exists evs. apply receive_events.
  - right. left. rewrite receive_error by reflexivity. now rewrite decimal_400.
  - right. right. rewrite receive_error by reflexivity. now rewrite decimal_500.
Qed.

Lemma served_fetch (E : Env) (toString : JSValue -> string) (body : JSValue)
      (st : State E) :
  Page.fetch (served E toString) body st =
    match POST E (mkRequest (inr body)) st with
    | (inr response, st') =>
        (Page.FetchResponse (status response) (inr (responseJSON response)), st')
    | (inl e, st') => (Page.FetchThrows e, st')
    end.
Proof. reflexivity. Qed.

(** The page sends strings, and every string has a string form. *)
Lemma strings_have_string_form (l : list string) :
  forallb hasStringForm (map JStr l) = true.
Proof. induction l as [|u us IH]; [reflexivity | exact IH]. Qed.

Lemma requestBody_destructure (selected : Page.URLList) (key : string) :
  destructure (Page.requestBody selected key)
  = inr (JArr (map JStr (Page.urls selected)), JStr key).
Proof. reflexivity. Qed.

(** The page and the route together.  A request the page sends always
    passes the validation of the route: the page has checked that there is
    a key and at least one URL.  The page then shows the events of the
    answer, which are the sorted aggregate of the batch as JSON, shows no
    error and is no longer loading. *)
Theorem page_request_passes_the_gate
  (E : Env) (toString : JSValue -> string) (s : Page.State) (st : State E)
  (selected : Page.URLList) :
  Page.selectedListId s <> EmptyString ->
  Page.apiKey s <> EmptyString ->
  Page.selectedList s = Some selected ->
  Page.urls selected <> [] ->
  let urls := map JStr (Page.urls selected) in
  let key := JStr (Page.apiKey s) in
  Page.scrapeEvents (served E toString) s st =
    (Page.setLoading false
       (Page.setEvents
          (JArr (map eventJSON (sortEvents E (concat (fst (batch E key urls st))))))
          (Page.setEvents (JArr []) (Page.setError None (Page.setLoading true s)))),
     snd (batch E key urls st)).
Proof.
  intros Hs Hk Hsel Hurls urls key. subst urls key. unfold Page.scrapeEvents.
  destruct (Str.nonEmpty (Page.selectedListId s)) eqn:Hs'.
  2:{ apply nonEmpty_false in Hs'. contradiction. }
  destruct (Str.nonEmpty (Page.apiKey s)) eqn:Hk'.
  2:{ apply nonEmpty_false in Hk'. contradiction. }
  simpl orb. cbn iota. rewrite Hsel.
  assert (Hlen : (List.length (Page.urls selected) =? 0)%nat = false)
    by (destruct (Page.urls selected); [congruence | reflexivity]).
  rewrite Hlen.
  assert (Hgate : noUrls (JArr (map JStr (Page.urls selected))) = false)
    by (destruct (Page.urls selected); [congruence | reflexivity]).
  pose proof (strings_have_string_form (Page.urls selected)) as Hstrings.
  rewrite served_fetch.
  rewrite (POST_unfold E (mkRequest (inr (Page.requestBody selected (Page.apiKey s))))
             (Page.requestBody selected (Page.apiKey s))
             (JArr (map JStr (Page.urls selected))) (JStr (Page.apiKey s)) st
             eq_refl (requestBody_destructure selected (Page.apiKey s)) Hstrings).
  rewrite Hgate. cbn [truthy]. rewrite Hk'. cbn [negb items_of].
  rewrite receive_events. reflexivity.
Qed.

(* ====================================================================== *)
(** * The further properties at concrete values *)
(* ====================================================================== *)

(** Four URLs, three events in all. *)
Lemma response_carries_every_event_witness :
  exists events,
    fst (POST Demo.env Samples.valid Demo.start) = inr (mkResponse (EventsBody events) 200) /\
    Permutation
      (concat (fst (batch Demo.env (JStr "k")
                      [Demo.down; Demo.bluenote; Demo.bare; Demo.example] Demo.start)))
      events /\
    List.length events =
      list_sum (map (@List.length Event)
                    (fst (batch Demo.env (JStr "k")
                            [Demo.down; Demo.bluenote; Demo.bare; Demo.example]
                            Demo.start))).
Proof.
  apply (response_carries_every_event Demo.env Samples.valid Samples.validBody (JStr "k")
           [Demo.down; Demo.bluenote; Demo.bare; Demo.example] Demo.start).
  - exact Demo_sort_conforms.
  - reflexivity.
  - reflexivity.
  - discriminate.
  - reflexivity.
  - reflexivity.
Defined.

(** The same request: seven calls, the URL that does not load without a
    model call. *)
Lemma call_log_of_a_batch_witness :
  calls (snd (POST Demo.env Samples.valid Demo.start)) =
    (calls Demo.start
     ++ batchCalls Demo.env (JStr "k")
          [Demo.down; Demo.bluenote; Demo.bare; Demo.example] Demo.start)%list /\
  renders (batchCalls Demo.env (JStr "k")
             [Demo.down; Demo.bluenote; Demo.bare; Demo.example] Demo.start)
  = [Demo.down; Demo.bluenote; Demo.bare; Demo.example] /\
  (List.length (extracts (batchCalls Demo.env (JStr "k")
                            [Demo.down; Demo.bluenote; Demo.bare; Demo.example]
                            Demo.start))
   <= List.length [Demo.down; Demo.bluenote; Demo.bare; Demo.example])%nat.
Proof.
  apply (call_log_of_a_batch Demo.env Samples.valid Samples.validBody (JStr "k")
           [Demo.down; Demo.bluenote; Demo.bare; Demo.example] Demo.start).
  - reflexivity.
  - reflexivity.
  - discriminate.
  - reflexivity.
  - reflexivity.
Defined.

(** The URL that does not load, after one event was collected. *)
Lemma render_failure_skips_the_model_witness :
  fst (processUrl Demo.env (JStr "k") [Demo.tba "kept"] Demo.down Demo.start)
  = inr [Demo.tba "kept"] /\
  calls (snd (processUrl Demo.env (JStr "k") [Demo.tba "kept"] Demo.down Demo.start))
  = (calls Demo.start ++ [Render Demo.down])%list.
Proof.
  apply (render_failure_skips_the_model Demo.env (JStr "k") Demo.down [Demo.tba "kept"]
           Demo.start (ThrownError "net::ERR_NAME_NOT_RESOLVED")).
  - reflexivity.
  - reflexivity.
Defined.

(** The reply for the venue page: two elements, two events. *)
Lemma extraction_is_all_or_nothing_witness :
  (fst (extractEventsWithGPT Demo.env "content" "shot" Demo.bluenote (JStr "k") Demo.start)
   = inr [] \/
   exists evs,
     fst (extractEventsWithGPT Demo.env "content" "shot" Demo.bluenote (JStr "k") Demo.start)
     = inr evs /\
     List.length evs = List.length (items_of (field Demo.twoEvents "events")) /\
     Forall2 (NormalizedFrom Demo.bluenote) (items_of (field Demo.twoEvents "events")) evs) /\
  (In JNull (items_of (field Demo.twoEvents "events")) ->
   fst (extractEventsWithGPT Demo.env "content" "shot" Demo.bluenote (JStr "k") Demo.start)
   = inr []).
Proof.
  apply (extraction_is_all_or_nothing Demo.env "content" "shot" "two events"
           Demo.bluenote (JStr "k") Demo.twoEvents
           (items_of (field Demo.twoEvents "events")) Demo.start).
  - reflexivity.
  - reflexivity.
  - reflexivity.
  - reflexivity.
  - reflexivity.
Defined.

(** An element with nothing but a name. *)
Lemma required_fields_are_populated_witness :
  let ev := mkEvent (JStr "bluenote.net") (JStr "Late Set") (JStr "TBA") (JStr "TBA")
                    JUndefined JUndefined Demo.bluenote in
  truthy (eventName ev) = true /\
  truthy (date ev) = true /\
  truthy (time ev) = true /\
  (truthy Demo.bluenote = true -> truthy (url ev) = true) /\
  ((truthy (venue ev) = true /\ venue ev = field Samples.withoutVenue "venue") \/
   exists host, URL_hostname Demo.env Demo.bluenote = inr host /\
                venue ev = JStr (Str.replace "www." EmptyString host)).
Proof.
  intro ev.
  apply (required_fields_are_populated Demo.env Demo.bluenote Samples.withoutVenue ev).
  reflexivity.
Defined.

(** A source that is not an address, and an element with its venue. *)
Lemma own_venue_needs_no_url_witness :
  (exists e, URL_hostname Demo.env Samples.notAnAddress = inl e) /\
  exists ev, normalizeEvent Demo.env Samples.notAnAddress Samples.withVenue = inr ev /\
             venue ev = field Samples.withVenue "venue".
Proof.
  split; [eexists; reflexivity|].
  apply (own_venue_needs_no_url Demo.env Samples.notAnAddress Samples.withVenue).
  - split; discriminate.
  - reflexivity.
Defined.

(** The same source, and the element without venue. *)
Lemma missing_venue_needs_the_url_witness :
  exists e', normalizeEvent Demo.env Samples.notAnAddress Samples.withoutVenue = inl e'.
Proof.
  apply (missing_venue_needs_the_url Demo.env Samples.notAnAddress Samples.withoutVenue
           (ThrownError "Invalid URL")).
  - reflexivity.
  - reflexivity.
Defined.

(** The venue page: www.bluenote.net gives bluenote.net. *)
Lemma venue_defaults_to_stripped_host_witness :
  exists ev, normalizeEvent Demo.env Demo.bluenote Samples.withoutVenue = inr ev /\
             venue ev = JStr (stripLeadingWww "www.bluenote.net").
Proof.
  apply (venue_defaults_to_stripped_host Demo.env Demo.bluenote Samples.withoutVenue
           "www.bluenote.net").
  - reflexivity.
  - left. reflexivity.
  - split; discriminate.
  - reflexivity.
Defined.

(** Two events on the 16th around one on the 15th. *)
Lemma equal_dates_keep_insertion_order_witness :
  filter (sameTime Demo.env (Demo.dated "b" "2025-03-16"))
         (sortEvents Demo.env [Demo.dated "b" "2025-03-16"; Demo.dated "a" "2025-03-15";
                               Demo.dated "c" "2025-03-16"])
  = filter (sameTime Demo.env (Demo.dated "b" "2025-03-16"))
           [Demo.dated "b" "2025-03-16"; Demo.dated "a" "2025-03-15";
            Demo.dated "c" "2025-03-16"].
Proof.
  apply (equal_dates_keep_insertion_order Demo.env
           [Demo.dated "b" "2025-03-16"; Demo.dated "a" "2025-03-15";
            Demo.dated "c" "2025-03-16"]
           (Demo.dated "b" "2025-03-16") Demo_sort_conforms).
  - intros e [<-|[<-|[<-|[]]]]; discriminate.
  - left. reflexivity.
Defined.

(** The 15th, an event without date, the 16th. *)
Lemma mixed_dates_are_not_consistent_witness :
  ~ Consistent (compareByDate Demo.env)
      [Demo.dated "a" "2025-03-15"; Demo.tba "u"; Demo.dated "b" "2025-03-16"].
Proof.
  apply (mixed_dates_are_not_consistent Demo.env (Demo.dated "a" "2025-03-15")
           (Demo.dated "b" "2025-03-16") (Demo.tba "u") 15 16).
  - reflexivity.
  - reflexivity.
  - discriminate.
  - reflexivity.
Defined.


(** The answer to the request with four addresses, and to the one in
    which a URL has no string form. *)
Lemma POST_never_throws_witness :
  (exists response,
      fst (POST Demo.env Samples.valid Demo.start) = inr response /\
      status response = 200%Z) /\
  (exists response,
      fst (POST Demo.env (mkRequest (inr Samples.mixedBody)) Demo.start) = inr response /\
      status response <> 200%Z).
Proof.
  split.
  - destruct (POST_never_throws Demo.env Samples.valid Demo.start
                (fst (POST Demo.env Samples.valid Demo.start))
                (snd (POST Demo.env Samples.valid Demo.start)))
      as (response & Hr & _ & Hiff).
    + reflexivity.
    + exists response. split; [exact Hr|]. apply Hiff.
      exists Samples.validBody, [Demo.down; Demo.bluenote; Demo.bare; Demo.example],
             (JStr "k").
      repeat split; try reflexivity. discriminate.
  - destruct (POST_never_throws Demo.env (mkRequest (inr Samples.mixedBody)) Demo.start
                (fst (POST Demo.env (mkRequest (inr Samples.mixedBody)) Demo.start))
                (snd (POST Demo.env (mkRequest (inr Samples.mixedBody)) Demo.start)))
      as (response & Hr & _ & Hiff).
    + reflexivity.
    + exists response. split; [exact Hr|]. intro H200. apply Hiff in H200.
      destruct H200 as (body & urls & apiKey & Hj & Hd & _ & _ & Hall).
      injection Hj as <-. injection Hd as <- _. discriminate Hall.
Defined.

(** Four URLs: one that does not load, one with two events, one whose
    model reply is not JSON, one with one event. *)
Lemma POST_aggregates_per_url_witness :
  let urls := [Demo.down; Demo.bluenote; Demo.bare; Demo.example] in
  let request := Demo.request (JArr urls) (JStr "k") in
  let perUrl := fst (batch Demo.env (JStr "k") urls Demo.start) in
  let st' := snd (batch Demo.env (JStr "k") urls Demo.start) in
  List.map (@List.length Event) perUrl = [0; 2; 0; 1]%nat /\
  (forEachUrl Demo.env (JStr "k") urls [] Demo.start = (inr (concat perUrl), st') /\
   POST Demo.env request Demo.start =
     (inr (mkResponse (EventsBody (sortEvents Demo.env (concat perUrl))) 200), st') /\
   List.length perUrl = List.length urls /\
   List.length (concat perUrl) = list_sum (map (@List.length Event) perUrl) /\
   renders (calls st') = (renders (calls Demo.start) ++ urls)%list).
Proof.
  intros urls request perUrl st'. split.
  - vm_compute. reflexivity.
  - apply (POST_aggregates_per_url Demo.env request
             (JObj [("urls", JArr urls); ("apiKey", JStr "k")]) (JStr "k") urls Demo.start).
    + reflexivity.
    + reflexivity.
    + discriminate.
    + reflexivity.
    + reflexivity.
Defined.

(** A third list, named " Clubs ". *)
Lemma created_list_is_selected_witness :
  Page.selectedList (Page.createNewList "id-3" 1700000000002 PageDemo.state)
  = Some (Page.mkURLList "id-3" " Clubs " [] 1700000000002) /\
  Page.lists (Page.createNewList "id-3" 1700000000002 PageDemo.state)
  = [PageDemo.venues; PageDemo.bands; Page.mkURLList "id-3" " Clubs " [] 1700000000002] /\
  Page.newListName (Page.createNewList "id-3" 1700000000002 PageDemo.state) = EmptyString.
Proof.
  apply (created_list_is_selected "id-3" 1700000000002 PageDemo.state).
  intros [H|[H|[]]]; discriminate H.
Defined.

Lemma ids_stay_distinct_witness :
  NoDup (Page.ids (Page.createNewList "id-3" 1700000000002 PageDemo.state)) /\
  NoDup (Page.ids (Page.deleteList "id-1" PageDemo.state)) /\
  NoDup (Page.ids (Page.addUrlToList PageDemo.state)) /\
  NoDup (Page.ids (Page.removeUrlFromList "https://down.test/" PageDemo.state)).
Proof.
  apply (ids_stay_distinct "id-3" "https://down.test/" "id-1" 1700000000002 PageDemo.state).
  - repeat constructor; simpl; intuition discriminate.
  - intros [H|[H|[]]]; discriminate H.
Defined.

Lemma create_then_delete_witness :
  Page.deleteList "id-3" (Page.createNewList "id-3" 1700000000002 PageDemo.state)
  = Page.setSelectedListId EmptyString (Page.setNewListName EmptyString PageDemo.state).
Proof.
  apply (create_then_delete "id-3" 1700000000002 PageDemo.state).
  - reflexivity.
  - intros [H|[H|[]]]; discriminate H.
Defined.

Lemma added_url_goes_last_witness :
  Page.urlsOf "id-1" (Page.addUrlToList PageDemo.state)
  = Some ["https://www.bluenote.net/newyork/"; "https://down.test/";
          "https://www.bluenote.net/newyork/"; "https://mywww.example.com/"] /\
  (forall id1, id1 <> "id-1" ->
               Page.urlsOf id1 (Page.addUrlToList PageDemo.state)
               = Page.urlsOf id1 PageDemo.state) /\
  Page.ids (Page.addUrlToList PageDemo.state) = ["id-1"; "id-2"].
Proof.
  apply (added_url_goes_last PageDemo.state).
  - reflexivity.
  - reflexivity.
Defined.

(** The URL typed in is new to the list: the round trip gives the list
    back. *)
Lemma add_then_remove_witness :
  Page.urlsOf "id-1"
    (Page.removeUrlFromList "https://mywww.example.com/" (Page.addUrlToList PageDemo.state))
  = Some ["https://www.bluenote.net/newyork/"; "https://down.test/";
          "https://www.bluenote.net/newyork/"].
Proof.
  apply (add_then_remove PageDemo.state
           ["https://www.bluenote.net/newyork/"; "https://down.test/";
            "https://www.bluenote.net/newyork/"]).
  - reflexivity.
  - reflexivity.
  - reflexivity.
  - intros [H|[H|[H|[]]]]; discriminate H.
Defined.

(** The empty list selected: nothing is sent. *)
Lemma scrape_guards_send_nothing_witness :
  let s := Page.setSelectedListId "id-2" PageDemo.state in
  snd (Page.scrapeEvents (served Demo.env PageDemo.toString) s Demo.start) = Demo.start /\
  (exists message,
      Page.error (fst (Page.scrapeEvents (served Demo.env PageDemo.toString) s Demo.start))
      = Some message) /\
  Page.events (fst (Page.scrapeEvents (served Demo.env PageDemo.toString) s Demo.start))
  = Page.events s /\
  Page.loading (fst (Page.scrapeEvents (served Demo.env PageDemo.toString) s Demo.start))
  = Page.loading s /\
  Page.lists (fst (Page.scrapeEvents (served Demo.env PageDemo.toString) s Demo.start))
  = Page.lists s.
Proof.
  intro s.
  apply (scrape_guards_send_nothing (served Demo.env PageDemo.toString) s Demo.start).
  right. right. right. reflexivity.
Defined.

Lemma scrape_always_settles_witness :
  let s' := fst (Page.scrapeEvents (served Demo.env PageDemo.toString)
                                   PageDemo.state Demo.start) in
  Page.loading s' = false /\
  Page.lists s' = Page.lists PageDemo.state /\
  ((Page.error s' = None /\
    Page.receive (served Demo.env PageDemo.toString)
      (fst (Page.fetch (served Demo.env PageDemo.toString)
              (Page.requestBody PageDemo.venues (Page.apiKey PageDemo.state)) Demo.start))
    = inr (Page.events s')) \/
   (exists message, Page.error s' = Some message) /\ Page.events s' = JArr []).
Proof.
  apply (scrape_always_settles (served Demo.env PageDemo.toString) PageDemo.state
           Demo.start PageDemo.venues).
  - discriminate.
  - discriminate.
  - reflexivity.
  - discriminate.
Defined.

(** The list with the venue page twice and a URL that does not load: four
    events are shown. *)
Lemma page_request_passes_the_gate_witness :
  Page.scrapeEvents (served Demo.env PageDemo.toString) PageDemo.state Demo.start =
    (Page.setLoading false
       (Page.setEvents
          (JArr (map eventJSON
                   (sortEvents Demo.env
                      (concat (fst (batch Demo.env (JStr "k")
                                      (map JStr (Page.urls PageDemo.venues)) Demo.start))))))
          (Page.setEvents (JArr [])
             (Page.setError None (Page.setLoading true PageDemo.state)))),
     snd (batch Demo.env (JStr "k") (map JStr (Page.urls PageDemo.venues)) Demo.start)).
Proof.
  apply (page_request_passes_the_gate Demo.env PageDemo.toString PageDemo.state Demo.start
           PageDemo.venues).
  - discriminate.
  - discriminate.
  - reflexivity.
  - discriminate.
Defined.
